(** * AgileQuery: the clause parsers and statement builders

    A shallow embedding of [src/query/utils.js], [src/query/selectQuery.js],
    [src/query/deleteSQL.js], [src/query/insertQuery.js], the UPDATE builder
    [updateSQL] and the minified SELECT builder, followed by the properties
    of the specification that were checked against them.

    Conventions of the embedding.
    - A JavaScript string is a [string] of 8-bit characters (the UTF-8 bytes
      of the text).
    - A JavaScript object is the list of its own enumerable entries in
      [Object.entries] order; keys are unique and a lookup takes the first.
    - A builder that can [throw] returns a [result]. *)

From Stdlib Require Import String Ascii List ZArith Lia Bool DecimalString.
Import ListNotations.
Open Scope string_scope.

(** ** JavaScript primitives used by the builders *)

Module JS.

(** Numbers: the integers (exact below 2^53, printed in plain decimal below
    10^21), [NaN] and the two infinities. *)
Inductive number : Type :=
| Int (z : Z)
| NaN
| Infinity (negative : bool).

Inductive scalar : Type :=
| Undefined
| Null
| Bool (b : bool)
| Num (n : number)
| Str (s : string).

(** An object whose property values are scalars. *)
Definition obj : Type := list (string * scalar).

Inductive error : Type :=
| Error (message : string)
| TypeError (message : string).

Inductive result (A : Type) : Type :=
| Ok (a : A)
| Throw (e : error).

Arguments Ok {A} a.
Arguments Throw {A} e.

Definition bind {A B : Type} (r : result A) (k : A -> result B) : result B :=
  match r with
  | Ok a => k a
  | Throw e => Throw e
  end.

(** [Array.prototype.map] with a callback that may throw: the first
    exception, in index order, aborts the loop. *)
Fixpoint mapM {A B : Type} (f : A -> result B) (l : list A) : result (list B) :=
  match l with
  | [] => Ok []
  | x :: xs =>
      bind (f x) (fun y => bind (mapM f xs) (fun ys => Ok (y :: ys)))
  end.

Definition nonempty (s : string) : bool :=
  match s with
  | EmptyString => false
  | String _ _ => true
  end.

Definition num_truthy (n : number) : bool :=
  match n with
  | Int z => negb (Z.eqb z 0)
  | NaN => false
  | Infinity _ => true
  end.

(** [ToBoolean]. *)
Definition truthy (v : scalar) : bool :=
  match v with
  | Undefined | Null => false
  | Bool b => b
  | Num n => num_truthy n
  | Str s => nonempty s
  end.

Definition string_of_nat (n : nat) : string :=
  NilEmpty.string_of_uint (Nat.to_uint n).

Definition string_of_Z (z : Z) : string :=
  NilEmpty.string_of_int (Z.to_int z).

Definition num_to_string (n : number) : string :=
  match n with
  | Int z => string_of_Z z
  | NaN => "NaN"
  | Infinity false => "Infinity"
  | Infinity true => "-Infinity"
  end.

(** [ToString], as applied by a template literal [`${v}`]. *)
Definition to_string (v : scalar) : string :=
  match v with
  | Undefined => "undefined"
  | Null => "null"
  | Bool true => "true"
  | Bool false => "false"
  | Num n => num_to_string n
  | Str s => s
  end.

(** [`${s}`] for a property that may be absent. *)
Definition opt_to_string (s : option string) : string :=
  match s with
  | Some s => s
  | None => "undefined"
  end.

(** [if (s)] for a string property that may be absent. *)
Definition opt_truthy (s : option string) : bool :=
  match s with
  | Some s => nonempty s
  | None => false
  end.

(** [v === 1]. *)
Definition is_one (n : number) : bool :=
  match n with
  | Int z => Z.eqb z 1
  | _ => false
  end.

(** [a || b]. *)
Definition or_else (a b : scalar) : scalar :=
  if truthy a then a else b.

(** [Array.prototype.join] on an array of strings. *)
Definition join (sep : string) (l : list string) : string :=
  String.concat sep l.

(** Own-property access: [o.k] is [undefined] when [k] is absent. *)
Fixpoint get (k : string) (o : obj) : scalar :=
  match o with
  | [] => Undefined
  | (k', v) :: o' => if String.eqb k' k then v else get k o'
  end.

(** ['k' in o]. *)
Definition has_key (k : string) (o : obj) : bool :=
  existsb (fun e => String.eqb (fst e) k) o.

(** The rest of an object destructuring: [const { k1, ..., ...rest } = o]. *)
Definition rest (ks : list string) (o : obj) : obj :=
  filter (fun e => negb (existsb (String.eqb (fst e)) ks)) o.

(** A destructuring default: [{ k = d }]. *)
Definition default_to (v d : scalar) : scalar :=
  match v with
  | Undefined => d
  | _ => v
  end.

Definition is_ws (c : ascii) : bool :=
  let n := nat_of_ascii c in
  ((9 <=? n) && (n <=? 13))%nat || (n =? 32)%nat.

Fixpoint trim_start (s : string) : string :=
  match s with
  | EmptyString => EmptyString
  | String c s' => if is_ws c then trim_start s' else s
  end.

Fixpoint trim_end (s : string) : string :=
  match s with
  | EmptyString => EmptyString
  | String c s' =>
      let r := trim_end s' in
      if is_ws c && negb (nonempty r) then EmptyString else String c r
  end.

(** [String.prototype.trim] (on the ASCII white space). *)
Definition trim (s : string) : string := trim_end (trim_start s).

Definition dquote : ascii := ascii_of_nat 34.

Definition backslash : ascii := ascii_of_nat 92.

Definition hex_digit (n : nat) : ascii :=
  if (n <? 10)%nat then ascii_of_nat (48 + n) else ascii_of_nat (87 + n).

(** The escape of one character inside a JSON string literal. *)
Definition json_escape (c : ascii) : string :=
  let n := nat_of_ascii c in
  if (n =? 34)%nat then String backslash (String dquote EmptyString)
  else if (n =? 92)%nat then "\\"
  else if (n =? 8)%nat then "\b"
  else if (n =? 12)%nat then "\f"
  else if (n =? 10)%nat then "\n"
  else if (n =? 13)%nat then "\r"
  else if (n =? 9)%nat then "\t"
  else if (n <? 32)%nat then
    "\u00" ++ String (hex_digit (n / 16)) (String (hex_digit (n mod 16)) EmptyString)
  else String c EmptyString.

Fixpoint json_chars (s : string) : string :=
  match s with
  | EmptyString => EmptyString
  | String c s' => json_escape c ++ json_chars s'
  end.

Definition json_string (s : string) : string :=
  String dquote (json_chars s ++ String dquote EmptyString).

(** [JSON.stringify(v)]; [None] is the value [undefined]. *)
Definition JSON_stringify (v : scalar) : option string :=
  match v with
  | Undefined => None
  | Null => Some "null"
  | Bool b => Some (to_string (Bool b))
  | Num (Int z) => Some (string_of_Z z)
  | Num _ => Some "null"
  | Str s => Some (json_string s)
  end.

(** [JSON.stringify] of an array of scalars: [undefined] elements print
    as [null]. *)
Definition JSON_stringify_array (l : list scalar) : string :=
  "[" ++ join ","
           (map (fun v => match JSON_stringify v with
                          | Some s => s
                          | None => "null"
                          end) l) ++ "]".

Fixpoint remove_last (s : string) : string :=
  match s with
  | EmptyString => EmptyString
  | String c EmptyString => EmptyString
  | String c s' => String c (remove_last s')
  end.

(** [s.slice(1, -1)]. *)
Definition slice_1_m1 (s : string) : string :=
  match s with
  | EmptyString => EmptyString
  | String _ s' => remove_last s'
  end.

End JS.

Import JS.

Notation "x <- c ;; k" := (bind c (fun x => k))
  (at level 61, c at next level, right associativity).

(** ** The clause parsers of [src/query/utils.js] *)

Module Utils.

(** A top-level value of a sort mapping: a direction code, a nested
    [column -> direction] mapping, or a value of another type (a string),
    for which the callback returns the empty string. *)
Inductive sort_value : Type :=
| SortDir (direction : number)
| SortTable (columns : list (string * scalar))
| SortOther (s : string).

(** [SortType]: a raw string or a mapping. *)
Inductive sort_spec : Type :=
| SortString (s : string)
| SortMap (entries : list (string * sort_value)).

(** [if (sort)] at the call sites and [!sort] inside [parseSort]. *)
Definition sort_truthy (sort : option sort_spec) : bool :=
  match sort with
  | None => false
  | Some (SortString s) => nonempty s
  | Some (SortMap _) => true
  end.

(** [direction === 1] on an arbitrary value. *)
Definition direction_is_one (direction : scalar) : bool :=
  match direction with
  | Num n => is_one n
  | _ => false
  end.

(** The callback of [entries.map] in [parseSort] (lines 18-27). *)
Definition sortEntry (r : string * sort_value) : string :=
  let (table, columns) := r in
  match columns with
  | SortDir n => table ++ " " ++ (if is_one n then "ASC" else "DESC")
  | SortTable cols =>
      join ", "
        (map (fun cd : string * scalar =>
                let (column, direction) := cd in
                table ++ "." ++ column ++ " " ++
                (if direction_is_one direction then "ASC" else "DESC"))
             cols)
  | SortOther _ => ""
  end.

Definition parseSort (sort : option sort_spec) : string :=
  match sort with
  | None => ""
  | Some (SortString s) => if nonempty s then " ORDER BY " ++ s else ""
  | Some (SortMap entries) =>
      match entries with
      | [] => ""
      | _ :: _ =>
          let query := join ", " (filter nonempty (map sortEntry entries)) in
          " ORDER BY " ++ query
      end
  end.

(** A value inside a column or group-by mapping. *)
Inductive column_value : Type :=
| ColumnString (s : string)
| ColumnArray (l : list string).

(** The column and the group-by specification: a raw string, a sequence of
    names, or a mapping from table alias to names with the key [extra]. *)
Inductive column_spec : Type :=
| ColString (s : string)
| ColArray (l : list string)
| ColMap (entries : list (string * column_value)).

Definition columns_truthy (columns : option column_spec) : bool :=
  match columns with
  | None => false
  | Some (ColString s) => nonempty s
  | Some _ => true
  end.

(** The [forEach] callback shared by [parseGroupBy] (lines 48-58) and
    [parsecolumns] (lines 115-125): it pushes onto [clauses]. *)
Definition pushClauses (clauses : list string)
  (entry : string * column_value) : list string :=
  let (table, columns) := entry in
  if String.eqb table "extra" then
    clauses ++ [match columns with
                | ColumnArray l => join ", " l
                | ColumnString _ => table
                end]
  else
    match columns with
    | ColumnArray l => clauses ++ map (fun column => table ++ "." ++ column) l
    | ColumnString _ => clauses
    end.

Definition parseGroupBy (groupBy : option column_spec) : string :=
  match groupBy with
  | None => ""
  | Some (ColString s) => if nonempty s then " GROUP BY " ++ s else ""
  | Some (ColArray l) => " GROUP BY " ++ join ", " l
  | Some (ColMap entries) =>
      let clauses := fold_left pushClauses entries [] in
      if (0 <? length clauses)%nat then " GROUP BY " ++ join ", " clauses
      else ""
  end.

Definition parsecolumns (columns : option column_spec) : string :=
  match columns with
  | None => ""
  | Some (ColString s) => s
  | Some (ColArray l) => join ", " l
  | Some (ColMap entries) =>
      let clauses := fold_left pushClauses entries [] in
      if (0 <? length clauses)%nat then join ", " clauses else ""
  end.

(** The filter of lines 70 and 84: the keys that are not reserved. *)
Definition tableEntry (e : string * scalar) : bool :=
  negb (String.eqb (fst e) "type") && negb (String.eqb (fst e) "on")
  && negb (String.eqb (fst e) "operator").

(** [tableEntries?.[0]?.[0]]. *)
Definition firstKey (tableEntries : obj) : scalar :=
  match tableEntries with
  | [] => Undefined
  | (k, _) :: _ => Str k
  end.

Definition explicitError (n : nat) : error :=
  Error ("❌JOIN requires exactly two tables for a relation, but found "
         ++ string_of_nat n ++ " or condition not found").

Definition shorthandError (n : nat) : error :=
  Error ("❌ JOIN shorthand requires exactly two tables, but found "
         ++ string_of_nat n ++ " or condition not found").

(** The callback of [joins.map] in [parseJoins] (lines 66-97). *)
Definition joinClause (join : obj) : result string :=
  if has_key "type" join then
    let type := get "type" join in
    let on := get "on" join in
    let operator := default_to (get "operator" join) (Str "=") in
    let tables := rest ["type"; "on"; "operator"] join in
    let tableEntries := filter tableEntry tables in
    if truthy on && (0 <? length tableEntries)%nat then
      let table := get "table" join in
      Ok (" " ++ to_string type ++ " "
          ++ to_string (or_else table (firstKey tableEntries))
          ++ " ON " ++ to_string on)
    else
      match tableEntries with
      | [(table1, column1); (table2, column2)] =>
          Ok (" " ++ to_string type ++ " " ++ table2 ++ " ON "
              ++ table1 ++ "." ++ to_string column1 ++ " "
              ++ to_string operator ++ " "
              ++ table2 ++ "." ++ to_string column2)
      | _ => Throw (explicitError (length tableEntries))
      end
  else
    let tableEntries := filter tableEntry join in
    if has_key "on" join && (0 <? length tableEntries)%nat then
      let on := get "on" join in
      Ok (" JOIN "
          ++ to_string (or_else (get "table" join) (firstKey tableEntries))
          ++ " ON " ++ to_string on)
    else
      match tableEntries with
      | [(table1, column1); (table2, column2)] =>
          Ok (" JOIN " ++ table2 ++ " ON "
              ++ table1 ++ "." ++ to_string column1 ++ " = "
              ++ table2 ++ "." ++ to_string column2)
      | _ => Throw (shorthandError (length tableEntries))
      end.

Definition parseJoins (joins : option (list obj)) : result string :=
  match joins with
  | None | Some [] => Ok ""
  | Some js =>
      joinClauses <- mapM joinClause js ;;
      Ok (join " " joinClauses)
  end.

End Utils.

(** ** The SELECT builder of [src/query/selectQuery.js] *)

Module SelectQuery.

Record sub_query : Type := {
  query : string;
  as_ : option string
}.

Record recursive_cte : Type := {
  baseCase : string;
  recursiveCase : string;
  alias : string
}.

Record limit_skip : Type := {
  limit : option number;
  skip : option number
}.

(** [SelectQueryParams]. An aggregate descriptor is an object: function
    names mapped to column expressions, and the optional key [alias]. *)
Record config : Type := {
  distinct : bool;
  sort : option Utils.sort_spec;
  limitSkip : option limit_skip;
  columns : option Utils.column_spec;
  subQueries : option (list sub_query);
  groupBy : option Utils.column_spec;
  recursiveCTE : option recursive_cte;
  aggregates : option (list obj);
  table : option string;
  where_ : option string;
  having : option string;
  joins : option (list obj)
}.

Definition newline : string := String (ascii_of_nat 10) EmptyString.

(** [aggregates_alias[func] || func] (own keys of the table). *)
Definition aggregates_alias (func : string) : string :=
  if String.eqb func "MIN" then "minimum"
  else if String.eqb func "MAX" then "maximum"
  else if String.eqb func "SUM" then "summation"
  else if String.eqb func "COUNT" then "count"
  else if String.eqb func "AVG" then "average"
  else func.

(** The template of a recursive CTE (lines 67-71). *)
Definition recursiveCTEQuery (cte : recursive_cte) : string :=
  "WITH RECURSIVE " ++ alias cte ++ " AS (" ++ newline
  ++ "            " ++ baseCase cte ++ newline
  ++ "            UNION ALL" ++ newline
  ++ "            " ++ recursiveCase cte ++ newline
  ++ "        ) ".

(** The callback of [subQueries.map] (line 88). *)
Definition subQueryString (subQuery : sub_query) : string :=
  "(" ++ query subQuery ++ ")"
  ++ (if opt_truthy (as_ subQuery) then " AS " ++ opt_to_string (as_ subQuery)
      else "").

(** The callback of [aggregates.map] (lines 94-109). *)
Definition aggString (agg : obj) : string :=
  let alias := get "alias" agg in
  let functions := rest ["alias"] agg in
  if truthy alias then
    let functionStr :=
      join ", " (map (fun fc : string * scalar =>
                        fst fc ++ "(" ++ to_string (snd fc) ++ ")") functions) in
    functionStr ++ " AS " ++ to_string alias
  else
    join ", " (map (fun fc : string * scalar =>
                      fst fc ++ "(" ++ to_string (snd fc) ++ ") AS "
                      ++ aggregates_alias (fst fc)) functions).

Definition limitTruthy (n : option number) : bool :=
  match n with
  | Some n => num_truthy n
  | None => false
  end.

Definition limitString (n : option number) : string :=
  match n with
  | Some n => num_to_string n
  | None => "undefined"
  end.

(** Lines 116-146, shared verbatim by the two SELECT builders: everything
    from the FROM clause to the final [trim]. *)
Definition fromClauseOnwards (c : config) (query0 select main_table : string)
  : result string :=
  let query := query0 ++ select ++ " FROM " ++ main_table in
  query <- match joins c with
           | Some js => j <- Utils.parseJoins (Some js) ;; Ok (query ++ j)
           | None => Ok query
           end ;;
  let query :=
    if opt_truthy (where_ c) then query ++ " WHERE " ++ opt_to_string (where_ c)
    else query in
  let query :=
    if Utils.columns_truthy (groupBy c)
    then query ++ Utils.parseGroupBy (groupBy c) else query in
  let query :=
    if opt_truthy (having c) then query ++ " HAVING " ++ opt_to_string (having c)
    else query in
  let query :=
    if Utils.sort_truthy (sort c) then query ++ Utils.parseSort (sort c)
    else query in
  let query :=
    match limitSkip c with
    | Some ls =>
        let query :=
          if limitTruthy (limit ls)
          then query ++ " LIMIT " ++ limitString (limit ls) else query in
        if limitTruthy (skip ls)
        then query ++ " OFFSET " ++ limitString (skip ls) else query
    | None => query
    end in
  Ok (trim query).

(** Lines 63-78: the CTE prefix, the table and the [SELECT [DISTINCT]]
    head. *)
Definition head (c : config) : string * string :=
  let (recursiveCTEQuery, main_table) :=
    match recursiveCTE c with
    | Some cte => (recursiveCTEQuery cte, alias cte)
    | None => ("", opt_to_string (table c))
    end in
  let query := recursiveCTEQuery ++ "SELECT " in
  let query := if distinct c then query ++ "DISTINCT " else query in
  (query, main_table).

(** Lines 79-114: the select-list. *)
Definition selectList (c : config) : string :=
  let select := "" in
  let select :=
    if Utils.columns_truthy (columns c) then Utils.parsecolumns (columns c)
    else select in
  let select :=
    match subQueries c with
    | Some subs =>
        let subQueryStatement := join ", " (map subQueryString subs) in
        select ++ (if nonempty select then ", " else "") ++ " "
        ++ subQueryStatement
    | None => select
    end in
  match aggregates c with
  | Some aggs =>
      let aggStrings := map aggString aggs in
      select ++ (if nonempty select then ", " else "") ++ join ", " aggStrings
  | None => "*"
  end.

Definition selectQuery (c : config) : result string :=
  let (query, main_table) := head c in
  fromClauseOnwards c query (selectList c) main_table.

End SelectQuery.

(** ** The minified SELECT builder of [src/unnamed/part_001] *)

Module Minified.

Import SelectQuery.

Section WithUtils.

(** The minified build calls [utils_1.parseColumns], which the [utils.js]
    under [src/] does not export (it exports [parsecolumns]); the function
    it is linked with is a parameter of this model. *)
Variable parseColumns : option Utils.column_spec -> string.

Definition selectList (c : config) : string :=
  let I := "" in
  let I := if Utils.columns_truthy (columns c) then parseColumns (columns c)
           else I in
  let I :=
    match subQueries c with
    | Some a =>
        I ++ (if nonempty I then ", " else "") ++ " "
        ++ join ", " (map subQueryString a)
    | None => I
    end in
  let I :=
    match aggregates c with
    | Some l =>
        I ++ (if nonempty I then ", " else "") ++ join ", " (map aggString l)
    | None => I
    end in
  if nonempty I then I else "*".

Definition selectQuery (c : config) : result string :=
  let (S, p) := head c in
  fromClauseOnwards c S (selectList c) p.

End WithUtils.

End Minified.

(** ** The DELETE builder of [src/query/deleteSQL.js] *)

Module DeleteSQL.

(** [DeleteQueryParams]; [limit] is a string or a number. *)
Record params : Type := {
  table : option string;
  where_ : option string;
  joins : option (list obj);
  limit : option scalar;
  sort : option Utils.sort_spec
}.

Definition tableRequired : error :=
  Error "⚠️ The `table` parameter is required.".

Definition whereRequired : error :=
  Error "⚠️ The `where` parameter is required.".

Definition limitTruthy (limit : option scalar) : bool :=
  match limit with
  | Some v => truthy v
  | None => false
  end.

Definition limitString (limit : option scalar) : string :=
  match limit with
  | Some v => to_string v
  | None => "undefined"
  end.

Definition deleteSQL (p : params) : result string :=
  if negb (opt_truthy (table p)) then Throw tableRequired
  else if negb (opt_truthy (where_ p)) then Throw whereRequired
  else
    let query :=
      "DELETE " ++ opt_to_string (table p) ++ " FROM " ++ opt_to_string (table p) in
    query <- match joins p with
             | Some js => j <- Utils.parseJoins (Some js) ;; Ok (query ++ j)
             | None => Ok (query ++ "")
             end ;;
    let query :=
      if opt_truthy (where_ p) then query ++ " WHERE " ++ opt_to_string (where_ p)
      else query in
    let query :=
      if Utils.sort_truthy (sort p) then query ++ Utils.parseSort (sort p)
      else query in
    let query :=
      if limitTruthy (limit p) then query ++ " LIMIT " ++ limitString (limit p)
      else query in
    Ok query.

End DeleteSQL.

(** ** The UPDATE builder [updateSQL] *)

Module UpdateSQL.

(** A value of [updateData]: a literal, or a conditional descriptor with
    its [case] branches [(when, then)] and its [default]. *)
Inductive update_value : Type :=
| Literal (v : scalar)
| Case (branches : list (string * scalar)) (default : scalar).

(** [UpdateSQLParams], with the defaults of the parameter destructuring
    already applied to the sequences and mappings. *)
Record params : Type := {
  table : option string;
  joins : option (list obj);
  updateData : list (string * update_value);
  where_ : option string;
  nullValues : list string;
  defaultValues : list string;
  limit : option scalar;
  sort : option Utils.sort_spec;
  fromSubQuery : list (string * string);
  setCalculations : list (string * string)
}.

(** [`${JSON.stringify(v)}`]. *)
Definition jsonLiteral (v : scalar) : string :=
  match JSON_stringify v with
  | Some s => s
  | None => "undefined"
  end.

(** The callback of [value.case.map] (lines 318-321). *)
Definition whenThen (caseCondition : string * scalar) : string :=
  let (when, then_) := caseCondition in
  "WHEN " ++ when ++ " THEN " ++ jsonLiteral then_.

(** The callback of [Object.entries(updateData).map] (lines 315-329). *)
Definition assignment (entry : string * update_value) : string :=
  let (column, value) := entry in
  match value with
  | Case branches default =>
      let caseStatement := join " " (map whenThen branches) in
      column ++ " = CASE " ++ caseStatement ++ " ELSE "
      ++ jsonLiteral default ++ " END"
  | Literal v =>
      match v with
      | Num _ | Bool _ => column ++ " = " ++ to_string v
      | Str s => column ++ " = " ++ jsonLiteral (Str (trim s))
      | Null | Undefined => column ++ " = " ++ jsonLiteral Undefined
      end
  end.

(** [updateInfo += updateInfo ? `, ${more}` : more], guarded by the length
    test of the group. *)
Definition appendGroup (updateInfo : string) (group : list string) : string :=
  match group with
  | [] => updateInfo
  | _ :: _ =>
      let more := join ", " group in
      updateInfo ++ (if nonempty updateInfo then ", " ++ more else more)
  end.

Definition setClause (p : params) : string :=
  let updateInfo := join "," (map assignment (updateData p)) in
  let updateInfo :=
    appendGroup updateInfo
      (map (fun cc : string * string => fst cc ++ " = " ++ snd cc)
           (setCalculations p)) in
  let updateInfo :=
    appendGroup updateInfo
      (map (fun cc : string * string => fst cc ++ " = " ++ snd cc)
           (fromSubQuery p)) in
  let updateInfo :=
    appendGroup updateInfo
      (map (fun column => column ++ " = NULL") (nullValues p)) in
  appendGroup updateInfo
    (map (fun column => column ++ " = DEFAULT") (defaultValues p)).

(** The destructuring defaults [table = ''], [where = ''], [joins = []]. *)
Definition orEmpty (s : option string) : string :=
  match s with
  | Some s => s
  | None => ""
  end.

Definition updateSQL (p : params) : result string :=
  let table := orEmpty (table p) in
  let where_ := orEmpty (where_ p) in
  if negb (nonempty table) then Throw DeleteSQL.tableRequired
  else if negb (nonempty where_) then Throw DeleteSQL.whereRequired
  else
    let updateInfo := setClause p in
    joinStatements <- Utils.parseJoins
                        (match joins p with Some js => Some js | None => Some [] end) ;;
    let query :=
      "UPDATE" ++ joinStatements ++ " " ++ table ++ " SET " ++ updateInfo in
    let query :=
      if nonempty where_ then query ++ " WHERE " ++ where_ else query in
    let query :=
      if Utils.sort_truthy (sort p) then query ++ Utils.parseSort (sort p)
      else query in
    let query :=
      if DeleteSQL.limitTruthy (limit p)
      then query ++ " LIMIT " ++ DeleteSQL.limitString (limit p) else query in
    Ok query.

End UpdateSQL.

(** ** The INSERT builder of [src/query/insertQuery.js] *)

Module InsertQuery.

(** [insertData]: one row or an array of rows. *)
Inductive insert_data : Type :=
| Row (row : obj)
| Rows (rows : list obj).

Record params : Type := {
  table : option string;
  insertData : option insert_data;
  dateFields : option (list string);
  uniqueColumn : option string;
  onDuplicateUpdateFields : list string
}.

Definition emptyData : error := Error "❌ Insert data array is empty".

(** [Object.keys(undefined)]. *)
Definition keysOfUndefined : error :=
  TypeError "Cannot convert undefined or null to object".

(** Lines 60-63: [date] is defined only for a non-empty [dateFields]. *)
Definition date (dateFields : option (list string)) : option (list string) :=
  match dateFields with
  | Some (f :: fs) => Some (map (fun _ => "CURRENT_TIMESTAMP") (f :: fs))
  | _ => None
  end.

Definition dateFieldsJoin (dateFields : option (list string)) : string :=
  match dateFields with
  | Some fs => join ", " fs
  | None => "undefined"
  end.

(** [JSON.stringify(Object.values(row)).slice(1, -1)]. *)
Definition rowValues (row : obj) : string :=
  slice_1_m1 (JSON_stringify_array (map snd row)).

(** Lines 68-81: the column list and the values clause. *)
Definition columnsValues (insertData : insert_data)
  (dateFields : option (list string)) : result (string * string) :=
  let date := date dateFields in
  match insertData with
  | Rows rows =>
      match rows with
      | [] => Throw keysOfUndefined
      | first :: _ =>
          let columns :=
            "(" ++ join ", " (map fst first)
            ++ (match date with
                | Some _ => "," ++ dateFieldsJoin dateFields
                | None => ""
                end) ++ ")" in
          let values :=
            join ", "
              (map (fun row =>
                      "(" ++ rowValues row
                      ++ (match date with
                          | Some d => ", " ++ join ", " d
                          | None => ""
                          end) ++ ")") rows) in
          Ok (columns, values)
      end
  | Row row =>
      let columns :=
        "(" ++ join ", " (map fst row)
        ++ (match date with
            | Some _ => "," ++ dateFieldsJoin dateFields
            | None => ""
            end) ++ ")" in
      let values :=
        "(" ++ rowValues row
        ++ (match date with
            | Some d => "," ++ join ", " d
            | None => ""
            end) ++ ")" in
      Ok (columns, values)
  end.

Definition insertQuery (p : params) : result string :=
  match insertData p with
  | None => Throw emptyData
  | Some data =>
      cv <- columnsValues data (dateFields p) ;;
      let (columns, values) := cv in
      let table := opt_to_string (table p) in
      if opt_truthy (uniqueColumn p) then
        Ok ("INSERT IGNORE INTO " ++ table ++ " " ++ columns
            ++ " VALUES " ++ values)
      else if (0 <? length (onDuplicateUpdateFields p))%nat then
        let updateFields :=
          join ", " (map (fun field => field ++ " = VALUES(" ++ field ++ ")")
                         (onDuplicateUpdateFields p)) in
        Ok ("INSERT INTO " ++ table ++ " " ++ columns ++ " VALUES " ++ values
            ++ " ON DUPLICATE KEY UPDATE " ++ updateFields)
      else
        Ok ("INSERT INTO " ++ table ++ " " ++ columns ++ " VALUES " ++ values)
  end.

End InsertQuery.

(** ** Notions used to state the properties *)

(** [s] occurs inside [t]. *)
Definition Contains (t s : string) : Prop :=
  exists before after, t = before ++ s ++ after.

(** [t] starts with [s]. *)
Definition StartsWith (t s : string) : Prop :=
  exists after, t = s ++ after.

(** The direction token written for a direction code. *)
Definition directionToken (n : number) : string :=
  if is_one n then "ASC" else "DESC".

(** The leaf entries of a sort mapping, in output order, each under the name
    it is printed with ([column] or [table.column]); [None] when some leaf
    value is not a number. *)
Fixpoint numericColumns (table : string) (cols : list (string * scalar))
  : option (list (string * number)) :=
  match cols with
  | [] => Some []
  | (column, Num n) :: cols' =>
      match numericColumns table cols' with
      | Some ls => Some ((table ++ "." ++ column, n) :: ls)
      | None => None
      end
  | _ :: _ => None
  end.

Fixpoint leafEntries (entries : list (string * Utils.sort_value))
  : option (list (string * number)) :=
  match entries with
  | [] => Some []
  | (table, Utils.SortDir n) :: entries' =>
      match leafEntries entries' with
      | Some ls => Some ((table, n) :: ls)
      | None => None
      end
  | (table, Utils.SortTable cols) :: entries' =>
      match numericColumns table cols, leafEntries entries' with
      | Some l1, Some l2 => Some (l1 ++ l2)%list
      | _, _ => None
      end
  | (_, Utils.SortOther _) :: _ => None
  end.

Definition leafString (leaf : string * number) : string :=
  fst leaf ++ " " ++ directionToken (snd leaf).

(** The words of a clause: the maximal runs of characters other than the
    space and the comma. [wordsFrom s] is the (possibly empty) word that
    starts [s] and the words after it. *)
Definition isSeparator (c : ascii) : bool :=
  Ascii.eqb c " " || Ascii.eqb c ",".

Definition consWord (w : string) (ws : list string) : list string :=
  if nonempty w then w :: ws else ws.

Fixpoint wordsFrom (s : string) : string * list string :=
  match s with
  | EmptyString => (EmptyString, [])
  | String c s' =>
      let (w, ws) := wordsFrom s' in
      if isSeparator c then (EmptyString, consWord w ws) else (String c w, ws)
  end.

Definition words (s : string) : list string :=
  consWord (fst (wordsFrom s)) (snd (wordsFrom s)).

Definition isDirection (w : string) : bool :=
  String.eqb w "ASC" || String.eqb w "DESC".

(** The direction tokens of a clause, in order. *)
Definition directionWords (s : string) : list string :=
  filter isDirection (words s).

Fixpoint noSeparator (s : string) : bool :=
  match s with
  | EmptyString => true
  | String c s' => negb (isSeparator c) && noSeparator s'
  end.

(** A column or table name that is one word and not itself a direction
    token. *)
Definition plainName (name : string) : bool :=
  noSeparator name && negb (isDirection name).

(** The join condition of a descriptor is usable: a truthy [on] in the
    explicit-type form, a present [on] key in the shorthand form, and in
    both at least one key that is not reserved. *)
Definition usableOn (join : obj) : bool :=
  (if has_key "type" join then truthy (get "on" join) else has_key "on" join)
  && (0 <? length (filter Utils.tableEntry join))%nat.

(** Concrete inputs. *)
Module Examples.

Definition select (table : string) (columns : option Utils.column_spec)
  (subQueries : option (list SelectQuery.sub_query))
  (aggregates : option (list obj)) : SelectQuery.config :=
  {| SelectQuery.distinct := false;
     SelectQuery.sort := None;
     SelectQuery.limitSkip := None;
     SelectQuery.columns := columns;
     SelectQuery.subQueries := subQueries;
     SelectQuery.groupBy := None;
     SelectQuery.recursiveCTE := None;
     SelectQuery.aggregates := aggregates;
     SelectQuery.table := Some table;
     SelectQuery.where_ := None;
     SelectQuery.having := None;
     SelectQuery.joins := None |}.

(** [{table: 'users', columns: ['id', 'name']}] *)
Definition usersColumns : SelectQuery.config :=
  select "users" (Some (Utils.ColArray ["id"; "name"])) None None.

(** [{table: 't', subQueries: [{query: 'SELECT 1', as: 'one'}]}] *)
Definition oneSubQuery : SelectQuery.config :=
  select "t" None
    (Some [{| SelectQuery.query := "SELECT 1"; SelectQuery.as_ := Some "one" |}])
    None.

(** [{table: 't', aggregates: []}] *)
Definition noAggregates : SelectQuery.config :=
  select "t" None None (Some []).

(** [{extra: 'COUNT(id) AS total'}] *)
Definition extraString : Utils.column_spec :=
  Utils.ColMap [("extra", Utils.ColumnString "COUNT(id) AS total")].

(** [{customers: 'customer_id', orders: 'customer_id', operator: op}] *)
Definition shorthandWith (operator : scalar) : obj :=
  [("customers", Str "customer_id"); ("orders", Str "customer_id");
   ("operator", operator)].

(** [{type: 'LEFT JOIN', customers: 'customer_id', orders: 'customer_id',
      operator: op}] *)
Definition explicitWith (operator : scalar) : obj :=
  ("type", Str "LEFT JOIN") :: shorthandWith operator.

(** [{on: '', a: 'x', b: 'y', c: 'z'}] *)
Definition emptyOnThreePairs : obj :=
  [("on", Str ""); ("a", Str "x"); ("b", Str "y"); ("c", Str "z")].

(** [{a: 'x', b: 'y', c: 'z'}] *)
Definition threePairs : obj :=
  [("a", Str "x"); ("b", Str "y"); ("c", Str "z")].

(** [{table: t, insertData: {}}] *)
Definition insertEmptyRow (t : string) : InsertQuery.params :=
  {| InsertQuery.table := Some t;
     InsertQuery.insertData := Some (InsertQuery.Row []);
     InsertQuery.dateFields := None;
     InsertQuery.uniqueColumn := None;
     InsertQuery.onDuplicateUpdateFields := [] |}.

(** [{table: t, insertData: []}] *)
Definition insertNoRows (t : string) : InsertQuery.params :=
  {| InsertQuery.table := Some t;
     InsertQuery.insertData := Some (InsertQuery.Rows []);
     InsertQuery.dateFields := None;
     InsertQuery.uniqueColumn := None;
     InsertQuery.onDuplicateUpdateFields := [] |}.

(** [{table: 't', insertData: [{a: 1}, {a: 2}], uniqueColumn: 'a'}], with
    the given [onDuplicateUpdateFields]. *)
Definition insertIgnore (fields : list string) : InsertQuery.params :=
  {| InsertQuery.table := Some "t";
     InsertQuery.insertData :=
       Some (InsertQuery.Rows [[("a", Num (Int 1))]; [("a", Num (Int 2))]]);
     InsertQuery.dateFields := None;
     InsertQuery.uniqueColumn := Some "a";
     InsertQuery.onDuplicateUpdateFields := fields |}.

(** [{table: 'products', insertData: {name: 'Laptop', price: 1000},
    dateFields: ['created_at'], onDuplicateUpdateFields: ['price']}] *)
Definition insertLaptop : InsertQuery.params :=
  {| InsertQuery.table := Some "products";
     InsertQuery.insertData :=
       Some (InsertQuery.Row [("name", Str "Laptop"); ("price", Num (Int 1000))]);
     InsertQuery.dateFields := Some ["created_at"];
     InsertQuery.uniqueColumn := None;
     InsertQuery.onDuplicateUpdateFields := ["price"] |}.

(** [{table: 'employees', updateData: {salary: {case: [{when: "position =
    'Manager'", then: 100000}], default: 50000}}, where: 'id = 1'}] *)
Definition salaryCase : UpdateSQL.params :=
  {| UpdateSQL.table := Some "employees";
     UpdateSQL.joins := None;
     UpdateSQL.updateData :=
       [("salary",
         UpdateSQL.Case [("position = 'Manager'", Num (Int 100000))]
                        (Num (Int 50000)))];
     UpdateSQL.where_ := Some "id = 1";
     UpdateSQL.nullValues := [];
     UpdateSQL.defaultValues := [];
     UpdateSQL.limit := None;
     UpdateSQL.sort := None;
     UpdateSQL.fromSubQuery := [];
     UpdateSQL.setCalculations := [] |}.

(** [{table: 'users', where: 'age > 30'}] *)
Definition deleteUsers : DeleteSQL.params :=
  {| DeleteSQL.table := Some "users";
     DeleteSQL.where_ := Some "age > 30";
     DeleteSQL.joins := None;
     DeleteSQL.limit := None;
     DeleteSQL.sort := None |}.

(** [{table: 'orders', where: "status = 'pending'", joins: [{type: 'INNER
    JOIN', table: 'customers', on: 'orders.customer_id = customers.id'}],
    sort: {orders: {order_date: -1}}, limit: 10}] *)
Definition deleteOrders : DeleteSQL.params :=
  {| DeleteSQL.table := Some "orders";
     DeleteSQL.where_ := Some "status = 'pending'";
     DeleteSQL.joins :=
       Some [[("type", Str "INNER JOIN"); ("table", Str "customers");
              ("on", Str "orders.customer_id = customers.id")]];
     DeleteSQL.limit := Some (Num (Int 10));
     DeleteSQL.sort :=
       Some (Utils.SortMap
               [("orders", Utils.SortTable [("order_date", Num (Int (-1)))])])
  |}.

(** [{total: 1, orders: {date: -1, id: 1}, rank: 2}] *)
Definition sortMixed : list (string * Utils.sort_value) :=
  [("total", Utils.SortDir (Int 1));
   ("orders", Utils.SortTable [("date", Num (Int (-1))); ("id", Num (Int 1))]);
   ("rank", Utils.SortDir (Int 2))].

End Examples.

(** ** Further notions and inputs *)



(** A column mapping of the declared shape: table aliases with their
    arrays of column names. *)
Definition tableColumns (tables : list (string * list string))
  : Utils.column_spec :=
  Utils.ColMap (map (fun tc : string * list string =>
                       (fst tc, Utils.ColumnArray (snd tc))) tables).

(** The groups of the SET clause of [updateSQL], each already joined. *)
Definition setGroups (p : UpdateSQL.params) : list string :=
  [join "," (map UpdateSQL.assignment (UpdateSQL.updateData p));
   join ", " (map (fun cc : string * string => fst cc ++ " = " ++ snd cc)
                  (UpdateSQL.setCalculations p));
   join ", " (map (fun cc : string * string => fst cc ++ " = " ++ snd cc)
                  (UpdateSQL.fromSubQuery p));
   join ", " (map (fun column => column ++ " = NULL") (UpdateSQL.nullValues p));
   join ", " (map (fun column => column ++ " = DEFAULT")
                  (UpdateSQL.defaultValues p))].


(** The clauses that follow the FROM clause of a SELECT statement, in the
    order they are appended (lines 121-145). *)
Definition selectTail (c : SelectQuery.config) : string :=
  (if opt_truthy (SelectQuery.where_ c)
   then " WHERE " ++ opt_to_string (SelectQuery.where_ c) else "")
  ++ (if Utils.columns_truthy (SelectQuery.groupBy c)
      then Utils.parseGroupBy (SelectQuery.groupBy c) else "")
  ++ (if opt_truthy (SelectQuery.having c)
      then " HAVING " ++ opt_to_string (SelectQuery.having c) else "")
  ++ Utils.parseSort (SelectQuery.sort c)
  ++ match SelectQuery.limitSkip c with
     | Some ls =>
         (if SelectQuery.limitTruthy (SelectQuery.limit ls)
          then " LIMIT " ++ SelectQuery.limitString (SelectQuery.limit ls)
          else "")
         ++ (if SelectQuery.limitTruthy (SelectQuery.skip ls)
             then " OFFSET " ++ SelectQuery.limitString (SelectQuery.skip ls)
             else "")
     | None => ""
     end.

(** The same INSERT parameters with another [insertData]. *)
Definition withData (p : InsertQuery.params) (data : InsertQuery.insert_data)
  : InsertQuery.params :=
  {| InsertQuery.table := InsertQuery.table p;
     InsertQuery.insertData := Some data;
     InsertQuery.dateFields := InsertQuery.dateFields p;
     InsertQuery.uniqueColumn := InsertQuery.uniqueColumn p;
     InsertQuery.onDuplicateUpdateFields :=
       InsertQuery.onDuplicateUpdateFields p |}.

(** The JSON text of one value inside a row: [undefined], [NaN] and the
    infinities print as [null]. *)
Definition jsonValue (v : scalar) : string :=
  match JSON_stringify v with
  | Some s => s
  | None => "null"
  end.

(** A string that is empty or starts with a character that is not white
    space; the same at its end. *)
Definition startsClean (s : string) : bool :=
  match s with
  | EmptyString => true
  | String c _ => negb (is_ws c)
  end.

Fixpoint endsClean (s : string) : bool :=
  match s with
  | EmptyString => true
  | String c EmptyString => negb (is_ws c)
  | String _ s' => endsClean s'
  end.

Module MoreExamples.

(** [{type: 'INNER JOIN', table: 'customers',
      on: 'orders.customer_id = customers.id'}] *)
Definition innerJoinOn : obj :=
  [("type", Str "INNER JOIN"); ("table", Str "customers");
   ("on", Str "orders.customer_id = customers.id")].

(** [{users: 'id', orders: 'user_id'}] *)
Definition usersOrders : obj :=
  [("users", Str "id"); ("orders", Str "user_id")].

(** [{orders: ['id', 'status'], customers: ['name']}] *)
Definition ordersCustomers : list (string * list string) :=
  [("orders", ["id"; "status"]); ("customers", ["name"])].

(** [{table: 'products', updateData: {name: '  Desk ', price: 10},
      where: 'id = 7', nullValues: ['note'], defaultValues: ['stock']}] *)
Definition updateDesk : UpdateSQL.params :=
  {| UpdateSQL.table := Some "products";
     UpdateSQL.joins := None;
     UpdateSQL.updateData :=
       [("name", UpdateSQL.Literal (Str "  Desk "));
        ("price", UpdateSQL.Literal (Num (Int 10)))];
     UpdateSQL.where_ := Some "id = 7";
     UpdateSQL.nullValues := ["note"];
     UpdateSQL.defaultValues := ["stock"];
     UpdateSQL.limit := None;
     UpdateSQL.sort := None;
     UpdateSQL.fromSubQuery := [];
     UpdateSQL.setCalculations := [] |}.

(** [{table: 'users', insertData: data}] *)
Definition insertUsers (data : InsertQuery.insert_data) : InsertQuery.params :=
  {| InsertQuery.table := Some "users";
     InsertQuery.insertData := Some data;
     InsertQuery.dateFields := None;
     InsertQuery.uniqueColumn := None;
     InsertQuery.onDuplicateUpdateFields := [] |}.

(** [{name: 'Ann', age: 30}] *)
Definition annRow : obj := [("name", Str "Ann"); ("age", Num (Int 30))].

(** [{table: 'orders', distinct: true, columns: 'id',
      aggregates: [{COUNT: 'id'}], where: 'total > 10',
      groupBy: ['id'], having: 'COUNT(id) > 1', sort: {id: -1},
      limitSkip: {limit: 5, skip: 10},
      joins: [{users: 'id', orders: 'user_id'}]}] *)
Definition fullSelect : SelectQuery.config :=
  {| SelectQuery.distinct := true;
     SelectQuery.sort := Some (Utils.SortMap [("id", Utils.SortDir (Int (-1)))]);
     SelectQuery.limitSkip :=
       Some {| SelectQuery.limit := Some (Int 5);
               SelectQuery.skip := Some (Int 10) |};
     SelectQuery.columns := Some (Utils.ColString "id");
     SelectQuery.subQueries := None;
     SelectQuery.groupBy := Some (Utils.ColArray ["id"]);
     SelectQuery.recursiveCTE := None;
     SelectQuery.aggregates := Some [[("COUNT", Str "id")]];
     SelectQuery.table := Some "orders";
     SelectQuery.where_ := Some "total > 10";
     SelectQuery.having := Some "COUNT(id) > 1";
     SelectQuery.joins := Some [usersOrders] |}.

(** [{recursiveCTE: {baseCase: 'SELECT 1', recursiveCase: 'SELECT n + 1
      FROM nums', alias: 'nums'}, table: 'ignored', aggregates: []}] *)
Definition cteSelect : SelectQuery.config :=
  {| SelectQuery.distinct := false;
     SelectQuery.sort := None;
     SelectQuery.limitSkip := None;
     SelectQuery.columns := Some (Utils.ColString "n");
     SelectQuery.subQueries := None;
     SelectQuery.groupBy := None;
     SelectQuery.recursiveCTE :=
       Some {| SelectQuery.baseCase := "SELECT 1";
               SelectQuery.recursiveCase := "SELECT n + 1 FROM nums";
               SelectQuery.alias := "nums" |};
     SelectQuery.aggregates := Some [];
     SelectQuery.table := Some "ignored";
     SelectQuery.where_ := None;
     SelectQuery.having := None;
     SelectQuery.joins := None |}.

(** [{table: 'users', where: 'id = 1', joins: [{a: 'x', b: 'y', c: 'z'}]}] *)
Definition deleteBadJoin : DeleteSQL.params :=
  {| DeleteSQL.table := Some "users";
     DeleteSQL.where_ := Some "id = 1";
     DeleteSQL.joins := Some [Examples.threePairs];
     DeleteSQL.limit := None;
     DeleteSQL.sort := None |}.

(** [{table: 'users', updateData: {age: 3}, where: 'id = 1',
      joins: [{a: 'x', b: 'y', c: 'z'}]}] *)
Definition updateBadJoin : UpdateSQL.params :=
  {| UpdateSQL.table := Some "users";
     UpdateSQL.joins := Some [Examples.threePairs];
     UpdateSQL.updateData := [("age", UpdateSQL.Literal (Num (Int 3)))];
     UpdateSQL.where_ := Some "id = 1";
     UpdateSQL.nullValues := [];
     UpdateSQL.defaultValues := [];
     UpdateSQL.limit := None;
     UpdateSQL.sort := None;
     UpdateSQL.fromSubQuery := [];
     UpdateSQL.setCalculations := [] |}.

(** [{table: 'users', insertData: {name: 'Ann', age: 30},
      dateFields: ['created_at', 'updated_at']}] *)
Definition insertAnnDated : InsertQuery.params :=
  {| InsertQuery.table := Some "users";
     InsertQuery.insertData := Some (InsertQuery.Row annRow);
     InsertQuery.dateFields := Some ["created_at"; "updated_at"];
     InsertQuery.uniqueColumn := None;
     InsertQuery.onDuplicateUpdateFields := [] |}.

End MoreExamples.

(** ** Strings and [join] *)

Section Strings.

Lemma append_assoc (a b c : string) : (a ++ b) ++ c = a ++ (b ++ c).
Proof.
  induction a as [|ch a IH]; simpl; [reflexivity | now rewrite IH].
Qed.

Lemma append_empty_r (a : string) : a ++ "" = a.
Proof.
  induction a as [|ch a IH]; simpl; [reflexivity | now rewrite IH].
Qed.

Lemma nonempty_append_l (a b : string) :
  nonempty a = true -> nonempty (a ++ b) = true.
Proof.
  destruct a; simpl; [discriminate | reflexivity].
Qed.

Lemma nonempty_append_r (a b : string) :
  nonempty b = true -> nonempty (a ++ b) = true.
Proof.
  destruct a; simpl; [trivial | reflexivity].
Qed.

Lemma nonempty_false (a : string) : nonempty a = false -> a = "".
Proof.
  destruct a; simpl; [reflexivity | discriminate].
Qed.

Variable sep : string.

Lemma join_cons (x : string) (l : list string) :
  join sep (x :: l) =
  match l with
  | [] => x
  | _ :: _ => x ++ sep ++ join sep l
  end.
Proof.
  destruct l; reflexivity.
Qed.

Lemma join_empty_inv (l : list string) :
  (forall x, In x l -> nonempty x = true) -> join sep l = "" -> l = [].
Proof.
  intros Hne Hj. destruct l as [|x l]; [reflexivity | exfalso].
  assert (Hx : nonempty x = true) by (apply Hne; now left).
  rewrite join_cons in Hj.
  destruct l; [| apply (nonempty_append_l x (sep ++ join sep (s :: l))) in Hx];
    rewrite Hj in Hx; discriminate.
Qed.

Lemma join_cons_congr (s : string) (A B : list string) :
  (forall x, In x A -> nonempty x = true) ->
  (forall x, In x B -> nonempty x = true) ->
  join sep A = join sep B ->
  join sep (s :: A) = join sep (s :: B).
Proof.
  intros HA HB Heq. rewrite !join_cons.
  destruct A as [|a A], B as [|b B]; try reflexivity.
  - symmetry in Heq. apply join_empty_inv in Heq; [discriminate | exact HB].
  - apply join_empty_inv in Heq; [discriminate | exact HA].
  - now rewrite Heq.
Qed.

(** Joining a non-empty group first and the rest afterwards is joining
    everything at once. *)
Lemma join_app_group (a : list string) (b : list string) :
  a <> [] -> join sep (a ++ b) = join sep (join sep a :: b).
Proof.
  induction a as [|x a IH]; intros Hne; [congruence |].
  destruct a as [|y a].
  - reflexivity.
  - assert (IH' := IH ltac:(discriminate)). simpl app in *.
    rewrite (join_cons x (y :: a ++ b)), IH', (join_cons x (y :: a)).
    rewrite !join_cons. destruct b; rewrite ?append_assoc; reflexivity.
Qed.

(** [entries.map(render).filter(Boolean).join(sep)], where every rendering
    is itself a [join] of non-empty pieces, is the [join] of all pieces. *)
Lemma join_groups (groups : list (list string)) :
  (forall g x, In g groups -> In x g -> nonempty x = true) ->
  join sep (filter nonempty (map (join sep) groups)) = join sep (concat groups).
Proof.
  induction groups as [|g gs IH]; intros Hne; [reflexivity |].
  assert (Hgs : forall g' x, In g' gs -> In x g' -> nonempty x = true)
    by (intros g' x Hg' Hx; apply (Hne g' x); [now right | exact Hx]).
  specialize (IH Hgs). simpl.
  destruct g as [|x g].
  - exact IH.
  - assert (Hx : nonempty x = true) by (apply (Hne (x :: g) x); now left).
    assert (Hj : nonempty (join sep (x :: g)) = true).
    { rewrite join_cons. destruct g; [exact Hx | now apply nonempty_append_l]. }
    rewrite Hj.
    change (x :: (g ++ concat gs))%list with ((x :: g) ++ concat gs)%list.
    rewrite join_app_group by discriminate.
    apply join_cons_congr.
    + intros y Hy. apply filter_In in Hy. apply Hy.
    + intros y Hy. apply in_concat in Hy. destruct Hy as [g' [Hg' Hy]].
      now apply (Hgs g' y).
    + exact IH.
Qed.

(** Every joined piece occurs in the result. *)
Lemma join_Contains (l : list string) (x : string) :
  In x l -> Contains (join sep l) x.
Proof.
  induction l as [|y l IH]; intros Hin; [contradiction |].
  rewrite join_cons. destruct Hin as [-> | Hin].
  - destruct l.
    + exists "", "". now rewrite append_empty_r.
    + exists "", (sep ++ join sep (s :: l)). reflexivity.
  - destruct l as [|z l]; [contradiction |].
    destruct (IH Hin) as [before [after Heq]]. rewrite Heq.
    exists (y ++ sep ++ before), after. now rewrite !append_assoc.
Qed.

End Strings.

Lemma Contains_context (t s before after : string) :
  Contains t s -> Contains (before ++ t ++ after) s.
Proof.
  intros [b [a ->]]. exists (before ++ b), (a ++ after).
  now rewrite !append_assoc.
Qed.

Lemma slice_brackets (s : string) : slice_1_m1 ("[" ++ s ++ "]") = s.
Proof.
  simpl. induction s as [|c s IH]; [reflexivity |].
  simpl. rewrite IH. destruct s; reflexivity.
Qed.

(** ** The clause parsers *)

Section ClauseParsers.

Import Utils.

Lemma nonempty_leafString (leaf : string * number) :
  nonempty (leafString leaf) = true.
Proof.
  unfold leafString. apply nonempty_append_r. reflexivity.
Qed.

Lemma numericColumns_render (table : string) (cols : list (string * scalar)) :
  forall ls, numericColumns table cols = Some ls ->
  map (fun cd : string * scalar =>
         let (column, direction) := cd in
         table ++ "." ++ column ++ " " ++
         (if direction_is_one direction then "ASC" else "DESC")) cols
  = map leafString ls.
Proof.
  induction cols as [|[column direction] cols IH]; intros ls Hls; simpl in Hls.
  - injection Hls as <-. reflexivity.
  - destruct direction as [| |b|n|s]; try discriminate.
    destruct (numericColumns table cols) as [ls'|]; [| discriminate].
    injection Hls as <-. cbn [map]. rewrite (IH ls' eq_refl). f_equal.
    unfold leafString, directionToken. cbn [fst snd direction_is_one].
    now rewrite !append_assoc.
Qed.

(** Each entry of a numeric sort mapping renders the [join] of the strings
    of its own leaves. *)
Lemma sortEntry_groups (entries : list (string * sort_value)) :
  forall ls, leafEntries entries = Some ls ->
  exists groups : list (list string),
    map sortEntry entries = map (join ", ") groups
    /\ concat groups = map leafString ls
    /\ (forall g x, In g groups -> In x g -> nonempty x = true).
Proof.
  induction entries as [|[table value] entries IH]; intros ls Hls;
    simpl in Hls.
  - injection Hls as <-. exists []. repeat split; intros; contradiction.
  - destruct value as [n|cols|s]; [| | discriminate].
    + destruct (leafEntries entries) as [ls'|]; [| discriminate].
      injection Hls as <-.
      destruct (IH ls' eq_refl) as [groups [Hmap [Hcat Hne]]].
      exists ([leafString (table, n)] :: groups). repeat split.
      * simpl. now rewrite Hmap.
      * simpl. now rewrite Hcat.
      * intros g x [<- | Hg] Hx; [| now apply (Hne g x)].
        destruct Hx as [<- | []]. apply nonempty_leafString.
    + destruct (numericColumns table cols) as [l1|] eqn:Hcols; [| discriminate].
      destruct (leafEntries entries) as [l2|]; [| discriminate].
      injection Hls as <-.
      destruct (IH l2 eq_refl) as [groups [Hmap [Hcat Hne]]].
      exists (map leafString l1 :: groups). repeat split.
      * simpl. rewrite Hmap. f_equal. f_equal.
        now apply numericColumns_render.
      * simpl. now rewrite Hcat, map_app.
      * intros g x [<- | Hg] Hx; [| now apply (Hne g x)].
        apply in_map_iff in Hx. destruct Hx as [leaf [<- _]].
        apply nonempty_leafString.
Qed.

Lemma directionToken_asc (n : number) :
  directionToken n = "ASC" <-> n = Int 1.
Proof.
  unfold directionToken. destruct n as [z| |neg]; simpl;
    [| split; discriminate | split; discriminate].
  destruct (Z.eqb_spec z 1) as [-> | Hz]; split; intros H;
    try reflexivity; try discriminate.
  injection H as ->. contradiction.
Qed.

Lemma directionToken_desc (n : number) :
  n <> Int 1 -> directionToken n = "DESC".
Proof.
  intros Hn. unfold directionToken.
  destruct (is_one n) eqn:H1; [| reflexivity].
  destruct n as [z| |neg]; simpl in H1; try discriminate.
  apply Z.eqb_eq in H1. now subst.
Qed.

Lemma wordsFrom_plain (a b : string) :
  noSeparator a = true ->
  wordsFrom (a ++ b) = (a ++ fst (wordsFrom b), snd (wordsFrom b)).
Proof.
  induction a as [|c a IH]; simpl; intros Ha.
  - now destruct (wordsFrom b).
  - apply andb_prop in Ha. destruct Ha as [Hc Ha].
    rewrite (IH Ha). apply negb_true_iff in Hc. now rewrite Hc.
Qed.

Lemma words_separator (c : ascii) (s : string) :
  isSeparator c = true -> words (String c s) = words s.
Proof.
  intros Hc. unfold words. simpl. destruct (wordsFrom s) as [w ws].
  now rewrite Hc.
Qed.

(** A word followed by a separator. *)
Lemma words_plain (a : string) (c : ascii) (s : string) :
  noSeparator a = true -> isSeparator c = true ->
  words (a ++ String c s) = consWord a (words s).
Proof.
  intros Ha Hc. unfold words at 1. rewrite (wordsFrom_plain _ _ Ha).
  cbn [fst snd]. simpl wordsFrom. destruct (wordsFrom s) as [w ws] eqn:Hs.
  rewrite Hc. cbn [fst snd]. rewrite append_empty_r.
  unfold words. now rewrite Hs.
Qed.

(** A word that ends the clause. *)
Lemma words_last (a : string) :
  noSeparator a = true -> words a = consWord a [].
Proof.
  intros Ha. rewrite <- (append_empty_r a) at 1. unfold words.
  rewrite (wordsFrom_plain _ _ Ha). cbn. now rewrite append_empty_r.
Qed.

Lemma directionWords_consWord (w : string) (ws : list string) :
  filter isDirection (consWord w ws) =
  ((if isDirection w then [w] else []) ++ filter isDirection ws)%list.
Proof.
  unfold consWord. destruct w; [reflexivity |]. cbn [nonempty filter].
  now destruct (isDirection (String a w)).
Qed.

Lemma directionToken_word (n : number) :
  noSeparator (directionToken n) = true
  /\ isDirection (directionToken n) = true.
Proof.
  unfold directionToken. now destruct (is_one n).
Qed.

(** The direction tokens of the joined leaf strings are the tokens of the
    leaves. *)
Lemma directionWords_leaves (ls : list (string * number)) :
  forallb plainName (map fst ls) = true ->
  directionWords (join ", " (map leafString ls))
  = map (fun leaf => directionToken (snd leaf)) ls.
Proof.
  induction ls as [|[name n] ls IH]; intros Hplain; [reflexivity |].
  cbn [map fst forallb] in Hplain. apply andb_prop in Hplain.
  destruct Hplain as [Hname Hplain]. apply andb_prop in Hname.
  destruct Hname as [Hsep Hdir]. apply negb_true_iff in Hdir.
  destruct (directionToken_word n) as [Htsep Htdir].
  cbn [map snd]. rewrite join_cons. unfold directionWords in *.
  destruct ls as [|leaf ls].
  - cbn [map]. unfold leafString. cbn [fst snd].
    change (name ++ " " ++ directionToken n)
      with (name ++ String " " (directionToken n)).
    rewrite (words_plain name " " (directionToken n) Hsep eq_refl).
    rewrite (words_last _ Htsep).
    rewrite !directionWords_consWord, Hdir, Htdir. reflexivity.
  - specialize (IH Hplain). cbn [map] in IH |- *.
    remember (join ", " (leafString leaf :: map leafString ls)) as more.
    unfold leafString. cbn [fst snd]. rewrite !append_assoc.
    change (name ++ " " ++ directionToken n ++ ", " ++ more)
      with (name ++ String " " (directionToken n
                                ++ String "," (String " " more))).
    rewrite (words_plain name " " _ Hsep eq_refl).
    rewrite (words_plain (directionToken n) "," _ Htsep eq_refl).
    rewrite (words_separator " " _ eq_refl).
    rewrite !directionWords_consWord, Hdir, Htdir. cbn [app].
    now rewrite IH.
Qed.

Lemma directionWords_orderBy (s : string) :
  directionWords (" ORDER BY " ++ s) = directionWords s.
Proof.
  unfold directionWords.
  change (" ORDER BY " ++ s)
    with (String " " ("ORDER" ++ String " " ("BY" ++ String " " s))).
  rewrite (words_separator " " _ eq_refl).
  rewrite (words_plain "ORDER" " " _ eq_refl eq_refl).
  rewrite (words_plain "BY" " " _ eq_refl eq_refl).
  now rewrite !directionWords_consWord.
Qed.

(** C7. For a sort mapping whose leaf values are all numbers, [parseSort]
    writes [" ORDER BY "] followed by one ["<name> <token>"] string per leaf
    entry, in order and separated by [", "] (and nothing at all for a
    mapping without entries); the token of a leaf is [ASC] exactly when its
    value is [1], and [DESC] for every other number. When the names are
    single words other than [ASC] and [DESC], the direction tokens that
    occur in the output are exactly the tokens of the leaves, one per leaf
    and in order. *)
Theorem parseSort_one_token_per_leaf
  (entries : list (string * sort_value)) (ls : list (string * number)) :
  leafEntries entries = Some ls ->
  parseSort (Some (SortMap entries)) =
    match entries with
    | [] => ""
    | _ :: _ => " ORDER BY " ++ join ", " (map leafString ls)
    end
  /\ (forallb plainName (map fst ls) = true ->
      directionWords (parseSort (Some (SortMap entries)))
      = map (fun leaf => directionToken (snd leaf)) ls)
  /\ (forall leaf, In leaf ls ->
        leafString leaf = fst leaf ++ " " ++ directionToken (snd leaf)
        /\ (directionToken (snd leaf) = "ASC" <-> snd leaf = Int 1)
        /\ (snd leaf <> Int 1 -> directionToken (snd leaf) = "DESC")).
Proof.
  intros Hls.
  assert (Hout : parseSort (Some (SortMap entries)) =
                 match entries with
                 | [] => ""
                 | _ :: _ => " ORDER BY " ++ join ", " (map leafString ls)
                 end).
  { destruct (sortEntry_groups entries ls Hls) as [groups [Hmap [Hcat Hne]]].
    unfold parseSort. destruct entries as [|e entries]; [reflexivity |].
    rewrite Hmap, join_groups, Hcat by exact Hne. reflexivity. }
  split; [exact Hout | split].
  - intros Hplain. rewrite Hout. destruct entries as [|e entries].
    + cbn in Hls. now injection Hls as <-.
    + rewrite directionWords_orderBy. now apply directionWords_leaves.
  - intros leaf _. split; [reflexivity |]. split.
    + apply directionToken_asc.
    + apply directionToken_desc.
Qed.

Lemma parseSort_one_token_per_leaf_witness :
  leafEntries Examples.sortMixed
  = Some [("total", Int 1); ("orders.date", Int (-1)); ("orders.id", Int 1);
          ("rank", Int 2)]
  /\ parseSort (Some (SortMap Examples.sortMixed))
     = " ORDER BY total ASC, orders.date DESC, orders.id ASC, rank DESC"
  /\ directionWords (parseSort (Some (SortMap Examples.sortMixed)))
     = ["ASC"; "DESC"; "ASC"; "DESC"].
Proof.
  split; [reflexivity | split].
  - exact (proj1 (parseSort_one_token_per_leaf Examples.sortMixed _ eq_refl)).
  - exact (proj1 (proj2 (parseSort_one_token_per_leaf Examples.sortMixed _
                           eq_refl)) eq_refl).
Defined.

(** The [extra] entry of a mapping: an array is joined verbatim, a string
    is replaced by the key itself (line 52 and line 119 push [table]). *)
Lemma pushClauses_extra (clauses : list string) (value : column_value) :
  pushClauses clauses ("extra", value) =
  (clauses ++ [match value with
               | ColumnArray l => join ", " l
               | ColumnString _ => "extra"
               end])%list.
Proof.
  destruct value; reflexivity.
Qed.

(** C2, on the code: whatever the text [s] of a string-valued [extra] is,
    [parsecolumns] returns the key name ["extra"] and [parseGroupBy]
    returns [" GROUP BY extra"]; the text [s] is lost. *)
Theorem extra_string_renders_key_name (s : string) :
  parsecolumns (Some (ColMap [("extra", ColumnString s)])) = "extra"
  /\ parseGroupBy (Some (ColMap [("extra", ColumnString s)])) = " GROUP BY extra"
  /\ parsecolumns (Some Examples.extraString) <> "COUNT(id) AS total".
Proof.
  repeat split. discriminate.
Qed.

(** C3, on the code: in the shorthand form the two-pair rendering always
    uses [=], whatever [operator] is supplied, while the explicit-type form
    uses the supplied operator. *)
Theorem shorthand_ignores_operator (operator : scalar) :
  parseJoins (Some [Examples.shorthandWith operator])
  = Ok " JOIN orders ON customers.customer_id = orders.customer_id"
  /\ parseJoins (Some [Examples.explicitWith (Str "<>")])
     = Ok " LEFT JOIN orders ON customers.customer_id <> orders.customer_id".
Proof.
  split; reflexivity.
Qed.

(** C5, on the code: a shorthand descriptor whose [on] is the empty string
    and which has three table-column pairs is not rejected: the fragment
    [" JOIN a ON "] is returned. Without the [on] key, or in the
    explicit-type form, the same pairs are rejected. *)
Theorem shorthand_empty_on_not_rejected :
  parseJoins (Some [Examples.emptyOnThreePairs]) = Ok " JOIN a ON "
  /\ parseJoins (Some [Examples.threePairs]) = Throw (shorthandError 3)
  /\ parseJoins (Some [("type", Str "JOIN") :: Examples.emptyOnThreePairs])
     = Throw (explicitError 3).
Proof.
  repeat split.
Qed.

Lemma filter_filter_implied {A : Type} (p q : A -> bool) (l : list A) :
  (forall x, p x = true -> q x = true) ->
  filter p (filter q l) = filter p l.
Proof.
  intros Hpq. induction l as [|x l IH]; [reflexivity |].
  simpl. destruct (p x) eqn:Hp.
  - rewrite (Hpq x Hp). simpl. now rewrite Hp, IH.
  - destruct (q x); simpl; now rewrite ?Hp, IH.
Qed.

(** Line 70 filters the rest of the destructuring once more. *)
Lemma tableEntries_rest (join : obj) :
  filter tableEntry (rest ["type"; "on"; "operator"] join)
  = filter tableEntry join.
Proof.
  apply filter_filter_implied. intros [k v]. unfold tableEntry. simpl.
  destruct (String.eqb k "type"), (String.eqb k "on"),
    (String.eqb k "operator"); simpl; congruence.
Qed.

(** The two-pair rendering, in each form. *)
Lemma joinClause_two_pairs (join : obj) (table1 table2 : string)
  (column1 column2 : scalar) :
  usableOn join = false ->
  filter tableEntry join = [(table1, column1); (table2, column2)] ->
  joinClause join =
  Ok (if has_key "type" join
      then " " ++ to_string (get "type" join) ++ " " ++ table2 ++ " ON "
           ++ table1 ++ "." ++ to_string column1 ++ " "
           ++ to_string (default_to (get "operator" join) (Str "=")) ++ " "
           ++ table2 ++ "." ++ to_string column2
      else " JOIN " ++ table2 ++ " ON "
           ++ table1 ++ "." ++ to_string column1 ++ " = "
           ++ table2 ++ "." ++ to_string column2).
Proof.
  unfold usableOn, joinClause. intros Hon Hentries.
  rewrite tableEntries_rest, Hentries in *.
  destruct (has_key "type" join); rewrite Hon; reflexivity.
Qed.

(** A descriptor without a usable [on] and without exactly two pairs is
    rejected, with the count of pairs and the message of its form. *)
Lemma joinClause_malformed (join : obj) :
  usableOn join = false ->
  length (filter tableEntry join) <> 2%nat ->
  joinClause join =
  Throw (if has_key "type" join
         then explicitError (length (filter tableEntry join))
         else shorthandError (length (filter tableEntry join))).
Proof.
  unfold usableOn, joinClause. intros Hon Hlen.
  rewrite tableEntries_rest.
  destruct (has_key "type" join); rewrite Hon;
    destruct (filter tableEntry join) as [|[t1 c1] [|[t2 c2] [|e l]]];
    try reflexivity; simpl in Hlen; congruence.
Qed.

Lemma mapM_throws {A B : Type} (f : A -> result B) (l : list A) (x : A)
  (e : error) :
  In x l -> f x = Throw e -> exists e', mapM f l = Throw e'.
Proof.
  induction l as [|y l IH]; intros Hin Hx; [contradiction |].
  simpl. destruct Hin as [-> | Hin].
  - rewrite Hx. now exists e.
  - destruct (f y) as [b|e1]; [| now exists e1]. simpl.
    destruct (IH Hin Hx) as [e' ->]. now exists e'.
Qed.

(** [parseJoins] returns no fragment when one descriptor is rejected. *)
Lemma parseJoins_malformed (joins : list obj) (join : obj) :
  In join joins ->
  usableOn join = false ->
  length (filter tableEntry join) <> 2%nat ->
  exists e, parseJoins (Some joins) = Throw e.
Proof.
  intros Hin Hon Hlen. destruct joins as [|j js]; [contradiction |].
  unfold parseJoins.
  destruct (mapM_throws joinClause (j :: js) join _ Hin
              (joinClause_malformed join Hon Hlen)) as [e ->].
  now exists e.
Qed.

End ClauseParsers.

(** ** The statement builders *)

Section Builders.

Lemma parseSort_falsy (sort : option Utils.sort_spec) :
  Utils.sort_truthy sort = false -> Utils.parseSort sort = "".
Proof.
  destruct sort as [[s | entries] |]; simpl; try discriminate; try reflexivity.
  now intros ->.
Qed.

Lemma parseJoins_default (joins : option (list obj)) :
  Utils.parseJoins (match joins with Some js => Some js | None => Some [] end)
  = Utils.parseJoins joins.
Proof.
  destruct joins; reflexivity.
Qed.

(** *** DELETE *)

Lemma deleteSQL_requires (p : DeleteSQL.params) :
  (opt_truthy (DeleteSQL.table p) = false ->
   DeleteSQL.deleteSQL p = Throw DeleteSQL.tableRequired)
  /\ (opt_truthy (DeleteSQL.table p) = true ->
      opt_truthy (DeleteSQL.where_ p) = false ->
      DeleteSQL.deleteSQL p = Throw DeleteSQL.whereRequired).
Proof.
  unfold DeleteSQL.deleteSQL. split.
  - now intros ->.
  - now intros -> ->.
Qed.

(** C9. With a non-empty [table] and [where], [deleteSQL] returns
    [DELETE <table> FROM <table>], then the joins fragment, then
    [ WHERE <where>], then the ORDER BY fragment, then [ LIMIT <n>];
    the joins, ORDER BY and LIMIT parts are empty when the option is
    absent. The call [{table: 'users', where: 'age > 30'}] returns
    exactly [DELETE users FROM users WHERE age > 30]. *)
Theorem deleteSQL_clause_order (p : DeleteSQL.params) (t w j : string) :
  DeleteSQL.table p = Some t -> nonempty t = true ->
  DeleteSQL.where_ p = Some w -> nonempty w = true ->
  Utils.parseJoins (DeleteSQL.joins p) = Ok j ->
  DeleteSQL.deleteSQL p =
    Ok ("DELETE " ++ t ++ " FROM " ++ t
        ++ j
        ++ " WHERE " ++ w
        ++ Utils.parseSort (DeleteSQL.sort p)
        ++ (if DeleteSQL.limitTruthy (DeleteSQL.limit p)
            then " LIMIT " ++ DeleteSQL.limitString (DeleteSQL.limit p)
            else ""))
  /\ (DeleteSQL.joins p = None -> j = "")
  /\ (DeleteSQL.sort p = None -> Utils.parseSort (DeleteSQL.sort p) = "")
  /\ (DeleteSQL.limit p = None ->
      DeleteSQL.limitTruthy (DeleteSQL.limit p) = false)
  /\ DeleteSQL.deleteSQL Examples.deleteUsers
     = Ok "DELETE users FROM users WHERE age > 30".
Proof.
  intros Ht Hne Hw Hnw Hj. repeat split.
  - unfold DeleteSQL.deleteSQL. rewrite Ht, Hw. cbn [opt_truthy opt_to_string].
    rewrite Hne, Hnw. cbn [negb].
    assert (Hq : forall q : string,
               match DeleteSQL.joins p with
               | Some js => bind (Utils.parseJoins (Some js))
                              (fun j0 => Ok (q ++ j0))
               | None => Ok (q ++ "")
               end = Ok (q ++ j)).
    { intros q. destruct (DeleteSQL.joins p) as [js|].
      - now rewrite Hj.
      - cbn in Hj. now injection Hj as <-. }
    rewrite Hq. cbn [bind].
    destruct (Utils.sort_truthy (DeleteSQL.sort p)) eqn:Hs;
      [| rewrite (parseSort_falsy _ Hs)];
      destruct (DeleteSQL.limitTruthy (DeleteSQL.limit p));
      rewrite ?append_assoc, ?append_empty_r; reflexivity.
  - intros Hnone. rewrite Hnone in Hj. cbn in Hj. now injection Hj as <-.
  - now intros ->.
  - now intros ->.
Qed.

Lemma deleteSQL_clause_order_witness :
  DeleteSQL.deleteSQL Examples.deleteOrders
  = Ok ("DELETE orders FROM orders"
        ++ " INNER JOIN customers ON orders.customer_id = customers.id"
        ++ " WHERE status = 'pending'"
        ++ " ORDER BY orders.order_date DESC"
        ++ " LIMIT 10").
Proof.
  exact (proj1 (deleteSQL_clause_order Examples.deleteOrders
                  "orders" "status = 'pending'"
                  " INNER JOIN customers ON orders.customer_id = customers.id"
                  eq_refl eq_refl eq_refl eq_refl eq_refl)).
Defined.

(** *** UPDATE *)

Lemma updateSQL_requires (p : UpdateSQL.params) :
  (opt_truthy (UpdateSQL.table p) = false ->
   UpdateSQL.updateSQL p = Throw DeleteSQL.tableRequired)
  /\ (opt_truthy (UpdateSQL.table p) = true ->
      opt_truthy (UpdateSQL.where_ p) = false ->
      UpdateSQL.updateSQL p = Throw DeleteSQL.whereRequired).
Proof.
  unfold UpdateSQL.updateSQL, UpdateSQL.orEmpty.
  destruct (UpdateSQL.table p) as [t|], (UpdateSQL.where_ p) as [w|];
    cbn [opt_truthy]; split; try discriminate; try reflexivity.
  - now intros ->.
  - now intros -> ->.
  - now intros ->.
  - now intros ->.
Qed.

Lemma updateSQL_clause_order (p : UpdateSQL.params) (t w j : string) :
  UpdateSQL.table p = Some t -> nonempty t = true ->
  UpdateSQL.where_ p = Some w -> nonempty w = true ->
  Utils.parseJoins (UpdateSQL.joins p) = Ok j ->
  UpdateSQL.updateSQL p =
    Ok (("UPDATE" ++ j ++ " " ++ t ++ " SET ")
        ++ UpdateSQL.setClause p
        ++ (" WHERE " ++ w
            ++ Utils.parseSort (UpdateSQL.sort p)
            ++ (if DeleteSQL.limitTruthy (UpdateSQL.limit p)
                then " LIMIT " ++ DeleteSQL.limitString (UpdateSQL.limit p)
                else ""))).
Proof.
  intros Ht Hne Hw Hnw Hj. unfold UpdateSQL.updateSQL.
  rewrite Ht, Hw, parseJoins_default, Hj. cbn [UpdateSQL.orEmpty bind].
  rewrite Hne, Hnw. cbn [negb].
  destruct (Utils.sort_truthy (UpdateSQL.sort p)) eqn:Hs;
    [| rewrite (parseSort_falsy _ Hs)];
    destruct (DeleteSQL.limitTruthy (UpdateSQL.limit p));
    rewrite ?append_assoc, ?append_empty_r; reflexivity.
Qed.

Lemma appendGroup_prefix (updateInfo : string) (group : list string) :
  exists tail, UpdateSQL.appendGroup updateInfo group = updateInfo ++ tail.
Proof.
  unfold UpdateSQL.appendGroup. destruct group as [|g group].
  - exists "". now rewrite append_empty_r.
  - destruct (nonempty updateInfo); eexists; reflexivity.
Qed.

(** The assignments of [updateData] come first in the SET clause. *)
Lemma setClause_prefix (p : UpdateSQL.params) :
  exists tail,
    UpdateSQL.setClause p
    = join "," (map UpdateSQL.assignment (UpdateSQL.updateData p)) ++ tail.
Proof.
  unfold UpdateSQL.setClause.
  repeat match goal with
         | |- context [UpdateSQL.appendGroup ?u ?g] =>
             let tail := fresh "tail" in
             let H := fresh "H" in
             destruct (appendGroup_prefix u g) as [tail H]; rewrite H; clear H
         end.
  eexists. rewrite !append_assoc. reflexivity.
Qed.

(** C8. An [updateData] entry that is a conditional descriptor is written
    into the statement as
    [<column> = CASE WHEN <when> THEN <then> ... ELSE <default> END], the
    branches in order and separated by one space, every [then] and the
    [default] as JSON literals; the call of the specification returns a
    statement containing
    [CASE WHEN position = 'Manager' THEN 100000 ELSE 50000 END]. *)
Theorem updateSQL_case_assignment (p : UpdateSQL.params) (column : string)
  (branches : list (string * scalar)) (default : scalar) (t w j : string) :
  In (column, UpdateSQL.Case branches default) (UpdateSQL.updateData p) ->
  UpdateSQL.table p = Some t -> nonempty t = true ->
  UpdateSQL.where_ p = Some w -> nonempty w = true ->
  Utils.parseJoins (UpdateSQL.joins p) = Ok j ->
  (exists q,
     UpdateSQL.updateSQL p = Ok q
     /\ Contains q
          (column ++ " = CASE "
           ++ join " "
                (map (fun b : string * scalar =>
                        "WHEN " ++ fst b ++ " THEN "
                        ++ UpdateSQL.jsonLiteral (snd b)) branches)
           ++ " ELSE " ++ UpdateSQL.jsonLiteral default ++ " END"))
  /\ (forall v s, JSON_stringify v = Some s -> UpdateSQL.jsonLiteral v = s)
  /\ (exists q,
        UpdateSQL.updateSQL Examples.salaryCase = Ok q
        /\ Contains q
             "CASE WHEN position = 'Manager' THEN 100000 ELSE 50000 END").
Proof.
  intros Hin Ht Hne Hw Hnw Hj. split; [| split].
  - eexists. split; [apply (updateSQL_clause_order p t w j); assumption |].
    apply Contains_context.
    destruct (setClause_prefix p) as [tail ->].
    apply (Contains_context _ _ ""). apply join_Contains.
    apply in_map_iff. exists (column, UpdateSQL.Case branches default).
    split; [| exact Hin].
    unfold UpdateSQL.assignment.
    erewrite map_ext; [reflexivity | now intros [when then_]].
  - intros v s Hv. unfold UpdateSQL.jsonLiteral. now rewrite Hv.
  - eexists. split; [reflexivity |].
    exists "UPDATE employees SET salary = ", " WHERE id = 1". reflexivity.
Qed.

Lemma updateSQL_case_assignment_witness :
  exists q,
    UpdateSQL.updateSQL Examples.salaryCase = Ok q
    /\ Contains q
         ("salary" ++ " = CASE "
          ++ join " " ["WHEN position = 'Manager' THEN 100000"]
          ++ " ELSE " ++ "50000" ++ " END").
Proof.
  exact (proj1 (updateSQL_case_assignment Examples.salaryCase "salary"
                  [("position = 'Manager'", Num (Int 100000))]
                  (Num (Int 50000)) "employees" "id = 1" ""
                  (or_introl eq_refl) eq_refl eq_refl eq_refl eq_refl eq_refl)).
Defined.

End Builders.

(** *** INSERT *)

Section Insert.

Import InsertQuery.

Lemma insertQuery_requires_data (p : params) :
  insertData p = None -> insertQuery p = Throw emptyData.
Proof.
  unfold insertQuery. now intros ->.
Qed.

(** The values of a row, after [slice(1, -1)] has removed the brackets of
    the JSON array. *)
Lemma rowValues_join (row : obj) :
  rowValues row =
  join "," (map (fun v => match JSON_stringify v with
                          | Some s => s
                          | None => "null"
                          end) (map snd row)).
Proof.
  unfold rowValues, JSON_stringify_array. apply slice_brackets.
Qed.

(** The fragments of a multi-row insertion without date fields. *)
Lemma columnsValues_rows (first : obj) (others : list obj) :
  columnsValues (Rows (first :: others)) None =
  Ok ("(" ++ join ", " (map fst first) ++ ")",
      join ", " (map (fun row => "(" ++ rowValues row ++ ")")
                     (first :: others))).
Proof.
  reflexivity.
Qed.

(** C4, on the code: an empty object as [insertData] is not rejected, the
    statement [INSERT INTO <table> () VALUES ()] is returned; an empty array
    of rows does not reach the validation error either, it fails later, in
    [Object.keys(insertData[0])]. Only an absent [insertData] raises the
    validation error. *)
Theorem insertQuery_accepts_empty_object (t : string) :
  insertQuery (Examples.insertEmptyRow t)
  = Ok ("INSERT INTO " ++ t ++ " () VALUES ()")
  /\ insertQuery (Examples.insertNoRows t) = Throw keysOfUndefined
  /\ keysOfUndefined <> emptyData.
Proof.
  repeat split. discriminate.
Qed.

(** The fragments exist for a single row and for a non-empty array of
    rows. *)
Lemma columnsValues_total (data : insert_data)
  (dateFields : option (list string)) :
  data <> Rows [] ->
  exists columns values, columnsValues data dateFields = Ok (columns, values).
Proof.
  intros Hdata. destruct data as [row | [|first others]];
    [| congruence |]; do 2 eexists; reflexivity.
Qed.

(** C6. For a row or a non-empty array of rows, [insertQuery] writes one of
    three forms, chosen in this order:
    [INSERT IGNORE INTO <table> <columns> VALUES <values>] when
    [uniqueColumn] is set, whatever [onDuplicateUpdateFields] is; otherwise
    [INSERT INTO ... ON DUPLICATE KEY UPDATE <field> = VALUES(<field>), ...]
    when [onDuplicateUpdateFields] is not empty; otherwise the plain
    [INSERT INTO <table> <columns> VALUES <values>]. The call
    [{table: 't', insertData: [{a: 1}, {a: 2}], uniqueColumn: 'a'}] returns
    a statement that starts with [INSERT IGNORE INTO t (a) VALUES (1), (2)],
    also when update fields are given. *)
Theorem insertQuery_three_forms :
  (forall (p : params) (data : insert_data),
     insertData p = Some data ->
     data <> Rows [] ->
     exists columns values,
       columnsValues data (dateFields p) = Ok (columns, values)
       /\ (opt_truthy (uniqueColumn p) = true ->
           insertQuery p =
             Ok ("INSERT IGNORE INTO " ++ opt_to_string (table p) ++ " "
                 ++ columns ++ " VALUES " ++ values))
       /\ (opt_truthy (uniqueColumn p) = false ->
           onDuplicateUpdateFields p <> [] ->
           insertQuery p =
             Ok ("INSERT INTO " ++ opt_to_string (table p) ++ " " ++ columns
                 ++ " VALUES " ++ values ++ " ON DUPLICATE KEY UPDATE "
                 ++ join ", "
                      (map (fun field => field ++ " = VALUES(" ++ field ++ ")")
                           (onDuplicateUpdateFields p))))
       /\ (opt_truthy (uniqueColumn p) = false ->
           onDuplicateUpdateFields p = [] ->
           insertQuery p =
             Ok ("INSERT INTO " ++ opt_to_string (table p) ++ " " ++ columns
                 ++ " VALUES " ++ values)))
  /\ (forall fields : list string,
        exists q,
          insertQuery (Examples.insertIgnore fields) = Ok q
          /\ StartsWith q "INSERT IGNORE INTO t (a) VALUES (1), (2)").
Proof.
  split.
  - intros p data Hdata Hne.
    destruct (columnsValues_total data (dateFields p) Hne)
      as [columns [values Hcv]].
    exists columns, values. split; [exact Hcv |].
    unfold insertQuery. rewrite Hdata, Hcv. cbn [bind]. repeat split.
    + now intros ->.
    + intros -> Hfields.
      destruct (onDuplicateUpdateFields p); [contradiction | reflexivity].
    + now intros -> ->.
  - intros fields. eexists. split; [reflexivity |]. now exists "".
Qed.

Lemma insertQuery_three_forms_witness :
  exists columns values,
    columnsValues (Row [("name", Str "Laptop"); ("price", Num (Int 1000))])
      (Some ["created_at"]) = Ok (columns, values)
    /\ insertQuery Examples.insertLaptop
       = Ok ("INSERT INTO products " ++ columns ++ " VALUES " ++ values
             ++ " ON DUPLICATE KEY UPDATE price = VALUES(price)").
Proof.
  destruct (proj1 insertQuery_three_forms Examples.insertLaptop
              (Row [("name", Str "Laptop"); ("price", Num (Int 1000))])
              eq_refl ltac:(discriminate))
    as [columns [values [Hcv [_ [Hdup _]]]]].
  exists columns, values. split; [exact Hcv |].
  apply Hdup; [reflexivity | discriminate].
Defined.

End Insert.

(** *** SELECT *)

Section Select.

Import SelectQuery.

(** Line 113: without [aggregates] the select-list is overwritten. *)
Lemma selectList_without_aggregates (c : config) :
  aggregates c = None -> selectList c = "*".
Proof.
  unfold selectList. now intros ->.
Qed.

(** C1, on the code: without [aggregates] the select-list is ["*"],
    whatever [columns] and [subQueries] are; the columns of
    [{table: 'users', columns: ['id', 'name']}] are lost. With an empty
    [aggregates] array and nothing else the select-list stays empty. *)
Theorem selectQuery_star_without_aggregates :
  (forall table columns subQueries,
     selectQuery (Examples.select table columns subQueries None)
     = Ok (trim ("SELECT * FROM " ++ table)))
  /\ selectQuery Examples.usersColumns = Ok "SELECT * FROM users"
  /\ Utils.parsecolumns (columns Examples.usersColumns) = "id, name"
  /\ selectQuery Examples.noAggregates = Ok "SELECT  FROM t".
Proof.
  repeat split.
Qed.

(** C10, on the code: the two SELECT builders differ. With sub-queries and
    no aggregates the minified build keeps the select-list and the build of
    [selectQuery.js] writes ["*"], whatever column parser the minified
    build is linked with; with the column parser of [utils.js] they differ
    on [{table: 'users', columns: ['id', 'name']}] too, and on an empty
    [aggregates] array. *)
Theorem selectQuery_builds_differ :
  (forall parseColumns,
     Minified.selectQuery parseColumns Examples.oneSubQuery
     = Ok "SELECT  (SELECT 1) AS one FROM t"
     /\ selectQuery Examples.oneSubQuery = Ok "SELECT * FROM t"
     /\ Minified.selectQuery parseColumns Examples.oneSubQuery
        <> selectQuery Examples.oneSubQuery)
  /\ Minified.selectQuery Utils.parsecolumns Examples.usersColumns
     = Ok "SELECT id, name FROM users"
  /\ selectQuery Examples.usersColumns = Ok "SELECT * FROM users"
  /\ (forall parseColumns,
        Minified.selectQuery parseColumns Examples.noAggregates
        = Ok "SELECT * FROM t")
  /\ selectQuery Examples.noAggregates = Ok "SELECT  FROM t".
Proof.
  repeat split. discriminate.
Qed.


End Select.

(** ** Further properties of the clause parsers *)

Section MoreClauseParsers.

Import Utils.

Lemma join_app (sep : string) (xs ys : list string) :
  xs <> [] -> ys <> [] ->
  join sep (xs ++ ys) = join sep xs ++ sep ++ join sep ys.
Proof.
  intros Hx Hy. rewrite (join_app_group sep xs ys Hx), join_cons.
  destruct ys; [congruence | reflexivity].
Qed.

Lemma mapM_app {A B : Type} (f : A -> result B) (a b : list A) :
  mapM f (a ++ b) =
  bind (mapM f a) (fun xs => bind (mapM f b) (fun ys => Ok (xs ++ ys)%list)).
Proof.
  induction a as [|x a IH]; simpl.
  - now destruct (mapM f b).
  - destruct (f x) as [y|e]; [| reflexivity]. simpl. rewrite IH.
    destruct (mapM f a) as [xs|e]; [| reflexivity]. simpl.
    now destruct (mapM f b).
Qed.

Lemma mapM_length {A B : Type} (f : A -> result B) (l : list A) :
  forall ys, mapM f l = Ok ys -> length ys = length l.
Proof.
  induction l as [|x l IH]; simpl; intros ys H.
  - now injection H as <-.
  - destruct (f x) as [y|e]; [| discriminate]. simpl in H.
    destruct (mapM f l) as [ys'|e]; [| discriminate]. simpl in H.
    injection H as <-. simpl. now rewrite (IH ys' eq_refl).
Qed.

Lemma parseJoins_nonempty (joins : list obj) :
  joins <> [] ->
  parseJoins (Some joins) =
  bind (mapM joinClause joins) (fun jc => Ok (join " " jc)).
Proof.
  destruct joins; [congruence | reflexivity].
Qed.

Lemma parseJoins_single (join : obj) :
  parseJoins (Some [join]) = joinClause join.
Proof.
  unfold parseJoins. simpl. now destruct (joinClause join).
Qed.

(** The rendering of a descriptor with a usable [on]. *)
Lemma joinClause_on (join : obj) :
  usableOn join = true ->
  joinClause join =
  Ok (" " ++ (if has_key "type" join then to_string (get "type" join)
              else "JOIN")
      ++ " "
      ++ to_string (or_else (get "table" join)
                            (firstKey (filter tableEntry join)))
      ++ " ON " ++ to_string (get "on" join)).
Proof.
  unfold usableOn, joinClause. intros Hon. rewrite tableEntries_rest.
  destruct (has_key "type" join); now rewrite Hon.
Qed.

Lemma joinClause_leading_space (join : obj) (s : string) :
  joinClause join = Ok s -> StartsWith s " ".
Proof.
  destruct (usableOn join) eqn:Hon.
  - rewrite (joinClause_on join Hon). intros H. injection H as <-.
    eexists. reflexivity.
  - destruct (filter tableEntry join) as [|[t1 c1] [|[t2 c2] [|e l]]] eqn:He.
    1, 2, 4: rewrite (joinClause_malformed join Hon) by (rewrite He; discriminate);
      discriminate.
    rewrite (joinClause_two_pairs join t1 t2 c1 c2 Hon He).
    intros H. injection H as <-.
    destruct (has_key "type" join); eexists; reflexivity.
Qed.

(** X1. A join descriptor without a usable [on] (truthy [on] in the
    explicit-type form, [on] key in the shorthand form) and with a number of
    table-column pairs other than two makes [parseJoins] throw: alone it
    gives the error of its form with the number of pairs, and any array
    that contains it gives no fragment. *)
Theorem parseJoins_rejects_malformed (joins : list obj) (join : obj) :
  In join joins ->
  usableOn join = false ->
  length (filter tableEntry join) <> 2%nat ->
  parseJoins (Some [join]) =
    Throw (if has_key "type" join
           then explicitError (length (filter tableEntry join))
           else shorthandError (length (filter tableEntry join)))
  /\ exists e, parseJoins (Some joins) = Throw e.
Proof.
  intros Hin Hon Hlen. split.
  - rewrite parseJoins_single. now apply joinClause_malformed.
  - now apply (parseJoins_malformed joins join).
Qed.

Lemma parseJoins_rejects_malformed_witness :
  parseJoins (Some [Examples.threePairs]) = Throw (shorthandError 3)
  /\ exists e,
       parseJoins (Some [MoreExamples.usersOrders; Examples.threePairs])
       = Throw e.
Proof.
  apply (parseJoins_rejects_malformed
           [MoreExamples.usersOrders; Examples.threePairs] Examples.threePairs).
  - right. now left.
  - reflexivity.
  - discriminate.
Defined.

(** X2. A descriptor with exactly two table-column pairs and no usable
    [on] renders [ <type> <table2> ON <table1>.<column1> <operator>
    <table2>.<column2>] in the explicit-type form, with [=] when no
    [operator] is given, and [ JOIN <table2> ON <table1>.<column1> =
    <table2>.<column2>] in the shorthand form. *)
Theorem parseJoins_two_pairs (join : obj) (table1 table2 : string)
  (column1 column2 : scalar) :
  usableOn join = false ->
  filter tableEntry join = [(table1, column1); (table2, column2)] ->
  parseJoins (Some [join]) =
  Ok (if has_key "type" join
      then " " ++ to_string (get "type" join) ++ " " ++ table2 ++ " ON "
           ++ table1 ++ "." ++ to_string column1 ++ " "
           ++ to_string (default_to (get "operator" join) (Str "=")) ++ " "
           ++ table2 ++ "." ++ to_string column2
      else " JOIN " ++ table2 ++ " ON "
           ++ table1 ++ "." ++ to_string column1 ++ " = "
           ++ table2 ++ "." ++ to_string column2).
Proof.
  intros Hon He. rewrite parseJoins_single.
  now apply joinClause_two_pairs.
Qed.

Lemma parseJoins_two_pairs_witness :
  parseJoins (Some [("type", Str "LEFT JOIN") :: MoreExamples.usersOrders])
  = Ok " LEFT JOIN orders ON users.id = orders.user_id".
Proof.
  exact (parseJoins_two_pairs
           (("type", Str "LEFT JOIN") :: MoreExamples.usersOrders)
           "users" "orders" (Str "id") (Str "user_id") eq_refl eq_refl).
Defined.

(** X3. A descriptor with a usable [on] renders
    [ <type> <table> ON <on>], with [JOIN] for the shorthand form and the
    first non-reserved key when [table] is missing or empty; the [on]
    condition wins over the table-column pairs, however many there are. *)
Theorem parseJoins_on_condition (join : obj) :
  usableOn join = true ->
  parseJoins (Some [join]) =
  Ok (" " ++ (if has_key "type" join then to_string (get "type" join)
              else "JOIN")
      ++ " "
      ++ to_string (or_else (get "table" join)
                            (firstKey (filter tableEntry join)))
      ++ " ON " ++ to_string (get "on" join)).
Proof.
  intros Hon. rewrite parseJoins_single. now apply joinClause_on.
Qed.

Lemma parseJoins_on_condition_witness :
  parseJoins (Some [MoreExamples.innerJoinOn])
  = Ok " INNER JOIN customers ON orders.customer_id = customers.id".
Proof.
  exact (parseJoins_on_condition MoreExamples.innerJoinOn eq_refl).
Defined.

(** X4. Join arrays compose: when two non-empty arrays of descriptors
    parse, their concatenation parses to the two fragments separated by one
    more space. *)
Theorem parseJoins_append (a b : list obj) (ja jb : string) :
  a <> [] -> b <> [] ->
  parseJoins (Some a) = Ok ja ->
  parseJoins (Some b) = Ok jb ->
  parseJoins (Some (a ++ b)%list) = Ok (ja ++ " " ++ jb).
Proof.
  intros Ha Hb Hja Hjb.
  rewrite (parseJoins_nonempty a Ha) in Hja.
  rewrite (parseJoins_nonempty b Hb) in Hjb.
  rewrite parseJoins_nonempty by (destruct a; [congruence | discriminate]).
  rewrite mapM_app.
  destruct (mapM joinClause a) as [xs|e] eqn:Hxs; [| discriminate].
  destruct (mapM joinClause b) as [ys|e] eqn:Hys; [| discriminate].
  simpl in *. injection Hja as <-. injection Hjb as <-.
  apply mapM_length in Hxs, Hys.
  rewrite join_app; [reflexivity | |].
  - destruct xs, a; simpl in *; congruence.
  - destruct ys, b; simpl in *; congruence.
Qed.

Lemma parseJoins_append_witness :
  parseJoins (Some [MoreExamples.usersOrders; MoreExamples.innerJoinOn])
  = Ok (" JOIN orders ON users.id = orders.user_id" ++ " "
        ++ " INNER JOIN customers ON orders.customer_id = customers.id").
Proof.
  apply (parseJoins_append [MoreExamples.usersOrders]
           [MoreExamples.innerJoinOn]).
  - discriminate.
  - discriminate.
  - reflexivity.
  - reflexivity.
Defined.

(** X5. The error of [parseJoins] is the error of the first descriptor
    that is rejected: descriptors after it are not looked at, and
    descriptors that parse before it do not hide it. *)
Theorem parseJoins_first_error (a b : list obj) (e : error) :
  (parseJoins (Some a) = Throw e -> parseJoins (Some (a ++ b)%list) = Throw e)
  /\ (forall ja, parseJoins (Some a) = Ok ja ->
      parseJoins (Some b) = Throw e ->
      parseJoins (Some (a ++ b)%list) = Throw e).
Proof.
  split.
  - intros Ha. destruct a as [|x a]; [discriminate |].
    rewrite parseJoins_nonempty in * by discriminate.
    rewrite mapM_app.
    destruct (mapM joinClause (x :: a)); [discriminate | exact Ha].
  - intros ja Ha Hb. destruct b as [|y b]; [discriminate |].
    destruct a as [|x a]; [exact Hb |].
    rewrite parseJoins_nonempty in * by discriminate.
    rewrite mapM_app.
    destruct (mapM joinClause (x :: a)); [| discriminate].
    destruct (mapM joinClause (y :: b)); [discriminate | exact Hb].
Qed.

Lemma parseJoins_first_error_witness :
  parseJoins (Some [Examples.threePairs;
                    ("type", Str "JOIN") :: Examples.threePairs])
  = Throw (shorthandError 3)
  /\ parseJoins (Some [MoreExamples.usersOrders; Examples.threePairs])
     = Throw (shorthandError 3).
Proof.
  split.
  - exact (proj1 (parseJoins_first_error [Examples.threePairs]
                    [("type", Str "JOIN") :: Examples.threePairs]
                    (shorthandError 3)) eq_refl).
  - exact (proj2 (parseJoins_first_error [MoreExamples.usersOrders]
                    [Examples.threePairs] (shorthandError 3))
                 _ eq_refl eq_refl).
Defined.

(** X6. Every fragment that [parseJoins] returns for a non-empty array
    starts with a space, so it can be appended to the table name or to the
    [UPDATE] keyword as it is. *)
Theorem parseJoins_leading_space (joins : list obj) (s : string) :
  joins <> [] ->
  parseJoins (Some joins) = Ok s ->
  StartsWith s " ".
Proof.
  intros Hne Hs. rewrite (parseJoins_nonempty joins Hne) in Hs.
  destruct joins as [|j js]; [congruence |]. cbn [mapM] in Hs.
  destruct (joinClause j) as [x|e] eqn:Hj; [| discriminate]. cbn [bind] in Hs.
  destruct (mapM joinClause js) as [xs|e]; [| discriminate]. cbn [bind] in Hs.
  injection Hs as <-.
  destruct (joinClause_leading_space j x Hj) as [after ->].
  destruct xs; eexists; reflexivity.
Qed.

Lemma parseJoins_leading_space_witness :
  StartsWith " JOIN orders ON users.id = orders.user_id" " ".
Proof.
  apply (parseJoins_leading_space [MoreExamples.usersOrders]).
  - discriminate.
  - reflexivity.
Defined.

End MoreClauseParsers.

Section ColumnsAndSort.

Import Utils.

Lemma pushClauses_app (clauses : list string) (entry : string * column_value) :
  pushClauses clauses entry = (clauses ++ pushClauses [] entry)%list.
Proof.
  destruct entry as [table [s | l]]; unfold pushClauses;
    destruct (String.eqb table "extra"); cbn [app];
    rewrite ?app_nil_r; reflexivity.
Qed.

(** The [forEach] loop collects the clauses of the entries in entry
    order. *)
Lemma fold_pushClauses (entries : list (string * column_value)) :
  forall clauses,
    fold_left pushClauses entries clauses
    = (clauses ++ flat_map (pushClauses []) entries)%list.
Proof.
  induction entries as [|entry entries IH]; intros clauses; simpl.
  - now rewrite app_nil_r.
  - rewrite IH, (pushClauses_app clauses entry). now rewrite <- app_assoc.
Qed.

Lemma join_nil_length (sep : string) (clauses : list string) :
  (if (0 <? length clauses)%nat then join sep clauses else "")
  = join sep clauses.
Proof.
  now destruct clauses.
Qed.

Lemma flat_map_tables (tables : list (string * list string)) :
  forallb (fun tc : string * list string =>
             negb (String.eqb (fst tc) "extra")) tables = true ->
  flat_map (pushClauses [])
    (map (fun tc : string * list string => (fst tc, ColumnArray (snd tc)))
         tables)
  = flat_map (fun tc : string * list string =>
                map (fun column => fst tc ++ "." ++ column) (snd tc)) tables.
Proof.
  induction tables as [|[table cols] tables IH]; intros Hkeys;
    [reflexivity |].
  cbn [forallb fst] in Hkeys. apply andb_prop in Hkeys.
  destruct Hkeys as [Hkey Hkeys]. apply negb_true_iff in Hkey.
  cbn [map flat_map fst snd]. rewrite (IH Hkeys). f_equal.
  unfold pushClauses. now rewrite Hkey.
Qed.

(** X7. For a mapping from table aliases (none of them [extra]) to arrays
    of column names, [parsecolumns] returns every column as
    [<table>.<column>], table after table in entry order, separated by
    [", "]; [parseGroupBy] returns the same list after [" GROUP BY "], and
    the empty string when there is no column at all. *)
Theorem parsecolumns_tables (tables : list (string * list string)) :
  forallb (fun tc : string * list string =>
             negb (String.eqb (fst tc) "extra")) tables = true ->
  let clauses :=
    flat_map (fun tc : string * list string =>
                map (fun column => fst tc ++ "." ++ column) (snd tc)) tables in
  parsecolumns (Some (tableColumns tables)) = join ", " clauses
  /\ parseGroupBy (Some (tableColumns tables)) =
     match clauses with
     | [] => ""
     | _ :: _ => " GROUP BY " ++ join ", " clauses
     end.
Proof.
  intros Hkeys clauses. unfold parsecolumns, parseGroupBy, tableColumns.
  rewrite fold_pushClauses, (flat_map_tables tables Hkeys). cbn [app].
  fold clauses. split.
  - apply join_nil_length.
  - now destruct clauses.
Qed.

Lemma parsecolumns_tables_witness :
  parsecolumns (Some (tableColumns MoreExamples.ordersCustomers))
  = "orders.id, orders.status, customers.name"
  /\ parseGroupBy (Some (tableColumns MoreExamples.ordersCustomers))
     = " GROUP BY orders.id, orders.status, customers.name".
Proof.
  exact (parsecolumns_tables MoreExamples.ordersCustomers eq_refl).
Defined.

(** X8. [parseGroupBy] and [parsecolumns] agree on every specification:
    the GROUP BY fragment is either empty or [" GROUP BY "] followed by
    the column list of [parsecolumns], and it is the latter whenever that
    list is not empty. An empty array is not treated as absent: it gives
    the bare keyword [" GROUP BY "]. *)
Theorem parseGroupBy_parsecolumns (groupBy : option column_spec) :
  (parseGroupBy groupBy = ""
   \/ parseGroupBy groupBy = " GROUP BY " ++ parsecolumns groupBy)
  /\ (nonempty (parsecolumns groupBy) = true ->
      parseGroupBy groupBy = " GROUP BY " ++ parsecolumns groupBy)
  /\ (groupBy = Some (ColArray []) -> parseGroupBy groupBy = " GROUP BY ").
Proof.
  split; [| split].
  - destruct groupBy as [[s | l | entries] |]; cbn [parseGroupBy parsecolumns].
    + destruct (nonempty s); [now right | now left].
    + now right.
    + destruct (fold_left pushClauses entries []); [now left | now right].
    + now left.
  - destruct groupBy as [[s | l | entries] |]; cbn [parseGroupBy parsecolumns].
    + now intros ->.
    + reflexivity.
    + destruct (fold_left pushClauses entries []); [discriminate | reflexivity].
    + discriminate.
  - now intros ->.
Qed.

Lemma parseGroupBy_parsecolumns_witness :
  parseGroupBy (Some (ColArray ["city"; "year"])) = " GROUP BY city, year"
  /\ parseGroupBy (Some (ColArray [])) = " GROUP BY ".
Proof.
  split.
  - exact (proj1 (proj2 (parseGroupBy_parsecolumns
                           (Some (ColArray ["city"; "year"])))) eq_refl).
  - exact (proj2 (proj2 (parseGroupBy_parsecolumns (Some (ColArray []))))
                 eq_refl).
Defined.

(** X9. [parseSort] returns the empty string exactly for an absent sort,
    an empty string and a mapping without entries; every other result
    starts with [" ORDER BY "]. *)
Theorem parseSort_empty_or_order_by (sort : option sort_spec) :
  (parseSort sort = ""
   <-> sort_truthy sort = false \/ sort = Some (SortMap []))
  /\ (parseSort sort = "" \/ StartsWith (parseSort sort) " ORDER BY ").
Proof.
  destruct sort as [[s | [|e entries]] |]; cbn [parseSort sort_truthy].
  - destruct s as [|c s]; cbn [nonempty]; split.
    + split; [now left | reflexivity].
    + now left.
    + split; [discriminate | intros [H | H]; discriminate].
    + right. eexists. reflexivity.
  - split; [split; [now right | reflexivity] | now left].
  - split.
    + split; [discriminate | intros [H | H]; discriminate].
    + right. eexists. reflexivity.
  - split; [split; [now left | reflexivity] | now left].
Qed.





Lemma flat_map_pushClauses_app (a b : list (string * column_value)) :
  fold_left pushClauses (a ++ b) []
  = (flat_map (pushClauses []) a ++ flat_map (pushClauses []) b)%list.
Proof.
  now rewrite fold_pushClauses, flat_map_app.
Qed.

(** X23. An [extra] array that follows the table entries is written after
    their columns as one more piece, its elements separated by [", "] and
    without a table prefix. The piece is written even when the array is
    empty, which leaves a trailing [", "] after the columns. *)
Theorem parsecolumns_extra_array (tables : list (string * list string))
  (extra : list string) :
  forallb (fun tc : string * list string =>
             negb (String.eqb (fst tc) "extra")) tables = true ->
  let clauses :=
    flat_map (fun tc : string * list string =>
                map (fun column => fst tc ++ "." ++ column) (snd tc)) tables in
  parsecolumns
    (Some (ColMap (map (fun tc : string * list string =>
                          (fst tc, ColumnArray (snd tc))) tables
                   ++ [("extra", ColumnArray extra)])))
  = join ", " (clauses ++ [join ", " extra])
  /\ (extra = [] -> clauses <> [] ->
      join ", " (clauses ++ [join ", " extra]) = join ", " clauses ++ ", ").
Proof.
  intros Hkeys clauses. split.
  - unfold parsecolumns.
    rewrite flat_map_pushClauses_app, (flat_map_tables tables Hkeys).
    fold clauses. cbn [flat_map pushClauses String.eqb Ascii.eqb Bool.eqb app].
    apply join_nil_length.
  - intros -> Hne. rewrite join_app by (exact Hne || discriminate).
    reflexivity.
Qed.

Lemma parsecolumns_extra_array_witness :
  parsecolumns
    (Some (ColMap [("orders", ColumnArray ["id"; "status"]);
                   ("customers", ColumnArray ["name"]);
                   ("extra", ColumnArray ["NOW() AS ts"; "1 AS one"])]))
  = "orders.id, orders.status, customers.name, NOW() AS ts, 1 AS one".
Proof.
  exact (proj1 (parsecolumns_extra_array MoreExamples.ordersCustomers
                  ["NOW() AS ts"; "1 AS one"] eq_refl)).
Defined.

(** X24. Inside a mapping, a string under a key other than [extra] is
    skipped: the entry adds nothing to the column list and nothing to the
    GROUP BY fragment, and raises no error. *)
Theorem parsecolumns_skips_string_entries
  (before after : list (string * column_value)) (table s : string) :
  String.eqb table "extra" = false ->
  parsecolumns (Some (ColMap (before ++ (table, ColumnString s) :: after)))
  = parsecolumns (Some (ColMap (before ++ after)))
  /\ parseGroupBy (Some (ColMap (before ++ (table, ColumnString s) :: after)))
     = parseGroupBy (Some (ColMap (before ++ after))).
Proof.
  intros Hkey. unfold parsecolumns, parseGroupBy.
  assert (Hskip : pushClauses [] (table, ColumnString s) = [])
    by (unfold pushClauses; now rewrite Hkey).
  rewrite !flat_map_pushClauses_app. cbn [flat_map]. rewrite Hskip.
  cbn [app]. split; reflexivity.
Qed.

Lemma parsecolumns_skips_string_entries_witness :
  parsecolumns
    (Some (ColMap [("orders", ColumnArray ["id"]);
                   ("customers", ColumnString "name")]))
  = parsecolumns (Some (ColMap [("orders", ColumnArray ["id"])])).
Proof.
  exact (proj1 (parsecolumns_skips_string_entries
                  [("orders", ColumnArray ["id"])] [] "customers" "name"
                  eq_refl)).
Defined.

End ColumnsAndSort.

(** ** Helper facts shared by the further properties *)

Lemma deleteSQL_clause_order_shape (p : DeleteSQL.params) (t w j : string) :
  DeleteSQL.table p = Some t -> nonempty t = true ->
  DeleteSQL.where_ p = Some w -> nonempty w = true ->
  Utils.parseJoins (DeleteSQL.joins p) = Ok j ->
  DeleteSQL.deleteSQL p =
    Ok ("DELETE " ++ t ++ " FROM " ++ t
        ++ j
        ++ " WHERE " ++ w
        ++ Utils.parseSort (DeleteSQL.sort p)
        ++ (if DeleteSQL.limitTruthy (DeleteSQL.limit p)
            then " LIMIT " ++ DeleteSQL.limitString (DeleteSQL.limit p)
            else "")).
Proof.
  intros Ht Hne Hw Hnw Hj.
  unfold DeleteSQL.deleteSQL. rewrite Ht, Hw. cbn [opt_truthy opt_to_string].
  rewrite Hne, Hnw. cbn [negb].
  assert (Hq : forall q : string,
             match DeleteSQL.joins p with
             | Some js => bind (Utils.parseJoins (Some js))
                            (fun j0 => Ok (q ++ j0))
             | None => Ok (q ++ "")
             end = Ok (q ++ j)).
  { intros q. destruct (DeleteSQL.joins p) as [js|].
    - now rewrite Hj.
    - cbn in Hj. now injection Hj as <-. }
  rewrite Hq. cbn [bind].
  destruct (Utils.sort_truthy (DeleteSQL.sort p)) eqn:Hs;
    [| rewrite (parseSort_falsy _ Hs)];
    destruct (DeleteSQL.limitTruthy (DeleteSQL.limit p));
    rewrite ?append_assoc, ?append_empty_r; reflexivity.
Qed.

(** ** Further properties of the DELETE and UPDATE builders *)

Section MoreDeleteUpdate.

(** X11. [deleteSQL] returns a statement exactly when [table] and [where]
    are non-empty and the joins parse. The [table] error comes first, also
    when [where] is missing too; then the [where] error; an error of
    [parseJoins] is passed on unchanged. *)
Theorem deleteSQL_outcome (p : DeleteSQL.params) :
  (opt_truthy (DeleteSQL.table p) = false ->
   DeleteSQL.deleteSQL p = Throw DeleteSQL.tableRequired)
  /\ (opt_truthy (DeleteSQL.table p) = true ->
      opt_truthy (DeleteSQL.where_ p) = false ->
      DeleteSQL.deleteSQL p = Throw DeleteSQL.whereRequired)
  /\ (forall e,
        opt_truthy (DeleteSQL.table p) = true ->
        opt_truthy (DeleteSQL.where_ p) = true ->
        Utils.parseJoins (DeleteSQL.joins p) = Throw e ->
        DeleteSQL.deleteSQL p = Throw e)
  /\ ((exists q, DeleteSQL.deleteSQL p = Ok q)
      <-> opt_truthy (DeleteSQL.table p) = true
          /\ opt_truthy (DeleteSQL.where_ p) = true
          /\ exists j, Utils.parseJoins (DeleteSQL.joins p) = Ok j).
Proof.
  destruct (deleteSQL_requires p) as [Htable Hwhere].
  assert (Hjoin : forall e,
             opt_truthy (DeleteSQL.table p) = true ->
             opt_truthy (DeleteSQL.where_ p) = true ->
             Utils.parseJoins (DeleteSQL.joins p) = Throw e ->
             DeleteSQL.deleteSQL p = Throw e).
  { intros e Ht Hw Hj. unfold DeleteSQL.deleteSQL. rewrite Ht, Hw.
    cbn [negb]. destruct (DeleteSQL.joins p) as [js|]; [| discriminate].
    now rewrite Hj. }
  repeat split; try assumption.
  - destruct (opt_truthy (DeleteSQL.table p)); [reflexivity |].
    destruct H as [q Hq]. now rewrite Htable in Hq.
  - destruct (opt_truthy (DeleteSQL.table p)) eqn:Ht.
    + destruct (opt_truthy (DeleteSQL.where_ p)); [reflexivity |].
      destruct H as [q Hq]. now rewrite Hwhere in Hq.
    + destruct H as [q Hq]. now rewrite Htable in Hq.
  - destruct (opt_truthy (DeleteSQL.table p)) eqn:Ht.
    + destruct (opt_truthy (DeleteSQL.where_ p)) eqn:Hw.
      * destruct (Utils.parseJoins (DeleteSQL.joins p)) as [j|e] eqn:Hj;
          [now exists j |].
        destruct H as [q Hq]. now rewrite (Hjoin e) in Hq.
      * destruct H as [q Hq]. now rewrite Hwhere in Hq.
    + destruct H as [q Hq]. now rewrite Htable in Hq.
  - intros [Ht [Hw [j Hj]]].
    destruct (DeleteSQL.table p) as [t|] eqn:Et; [| discriminate].
    destruct (DeleteSQL.where_ p) as [w|] eqn:Ew; [| discriminate].
    eexists. apply (deleteSQL_clause_order_shape p t w j); assumption.
Qed.

Lemma deleteSQL_outcome_witness :
  DeleteSQL.deleteSQL MoreExamples.deleteBadJoin
  = Throw (Utils.shorthandError 3).
Proof.
  exact (proj1 (proj2 (proj2 (deleteSQL_outcome MoreExamples.deleteBadJoin)))
               _ eq_refl eq_refl eq_refl).
Defined.

Lemma deleteUpdate_join_error (p : UpdateSQL.params) (e : error) :
  opt_truthy (UpdateSQL.table p) = true ->
  opt_truthy (UpdateSQL.where_ p) = true ->
  Utils.parseJoins (UpdateSQL.joins p) = Throw e ->
  UpdateSQL.updateSQL p = Throw e.
Proof.
  intros Ht Hw Hj. unfold UpdateSQL.updateSQL.
  destruct (UpdateSQL.table p) as [t|]; [| discriminate].
  destruct (UpdateSQL.where_ p) as [w|]; [| discriminate].
  cbn [opt_truthy UpdateSQL.orEmpty] in *. rewrite Ht, Hw. cbn [negb].
  now rewrite parseJoins_default, Hj.
Qed.

(** X12. [updateSQL] returns a statement exactly when [table] and [where]
    are non-empty and the joins parse. The [table] error comes first, then
    the [where] error; an error of [parseJoins] is passed on unchanged, and
    nothing else in the parameters can make it throw. *)
Theorem updateSQL_outcome (p : UpdateSQL.params) :
  (opt_truthy (UpdateSQL.table p) = false ->
   UpdateSQL.updateSQL p = Throw DeleteSQL.tableRequired)
  /\ (opt_truthy (UpdateSQL.table p) = true ->
      opt_truthy (UpdateSQL.where_ p) = false ->
      UpdateSQL.updateSQL p = Throw DeleteSQL.whereRequired)
  /\ (forall e,
        opt_truthy (UpdateSQL.table p) = true ->
        opt_truthy (UpdateSQL.where_ p) = true ->
        Utils.parseJoins (UpdateSQL.joins p) = Throw e ->
        UpdateSQL.updateSQL p = Throw e)
  /\ ((exists q, UpdateSQL.updateSQL p = Ok q)
      <-> opt_truthy (UpdateSQL.table p) = true
          /\ opt_truthy (UpdateSQL.where_ p) = true
          /\ exists j, Utils.parseJoins (UpdateSQL.joins p) = Ok j).
Proof.
  destruct (updateSQL_requires p) as [Htable Hwhere].
  pose proof (deleteUpdate_join_error p) as Hjoin.
  repeat split; try assumption.
  - destruct (opt_truthy (UpdateSQL.table p)); [reflexivity |].
    destruct H as [q Hq]. now rewrite Htable in Hq.
  - destruct (opt_truthy (UpdateSQL.table p)) eqn:Ht.
    + destruct (opt_truthy (UpdateSQL.where_ p)); [reflexivity |].
      destruct H as [q Hq]. now rewrite Hwhere in Hq.
    + destruct H as [q Hq]. now rewrite Htable in Hq.
  - destruct (opt_truthy (UpdateSQL.table p)) eqn:Ht.
    + destruct (opt_truthy (UpdateSQL.where_ p)) eqn:Hw.
      * destruct (Utils.parseJoins (UpdateSQL.joins p)) as [j|e] eqn:Hj;
          [now exists j |].
        destruct H as [q Hq]. now rewrite (Hjoin e) in Hq.
      * destruct H as [q Hq]. now rewrite Hwhere in Hq.
    + destruct H as [q Hq]. now rewrite Htable in Hq.
  - intros [Ht [Hw [j Hj]]].
    destruct (UpdateSQL.table p) as [t|] eqn:Et; [| discriminate].
    destruct (UpdateSQL.where_ p) as [w|] eqn:Ew; [| discriminate].
    eexists. apply (updateSQL_clause_order p t w j); assumption.
Qed.

Lemma updateSQL_outcome_witness :
  UpdateSQL.updateSQL MoreExamples.updateBadJoin
  = Throw (Utils.shorthandError 3).
Proof.
  exact (proj1 (proj2 (proj2 (updateSQL_outcome MoreExamples.updateBadJoin)))
               _ eq_refl eq_refl eq_refl).
Defined.

Lemma filter_nonempty_snoc (pieces : list string) (s : string) :
  filter nonempty (pieces ++ [s]) =
  (filter nonempty pieces ++ (if nonempty s then [s] else []))%list.
Proof.
  rewrite filter_app. cbn [filter]. now destruct (nonempty s).
Qed.

Lemma nonempty_join_map {A : Type} (sep : string) (f : A -> string)
  (l : list A) :
  (forall x, nonempty (f x) = true) ->
  nonempty (join sep (map f l)) = match l with [] => false | _ :: _ => true end.
Proof.
  intros Hf. destruct l as [|x l]; [reflexivity |]. cbn [map].
  rewrite join_cons. destruct (map f l); [apply Hf |].
  apply nonempty_append_l, Hf.
Qed.

(** One step of the SET clause: appending a group to the groups joined so
    far is joining one more piece, unless the group is empty. *)
Lemma appendGroup_join {A : Type} (pieces : list string) (f : A -> string)
  (l : list A) :
  (forall x, nonempty (f x) = true) ->
  UpdateSQL.appendGroup (join ", " (filter nonempty pieces)) (map f l)
  = join ", " (filter nonempty (pieces ++ [join ", " (map f l)])).
Proof.
  intros Hf. rewrite filter_nonempty_snoc, (nonempty_join_map ", " f l Hf).
  unfold UpdateSQL.appendGroup. destruct l as [|x l]; cbn [map].
  - now rewrite app_nil_r.
  - set (more := join ", " (f x :: map f l)).
    destruct (nonempty (join ", " (filter nonempty pieces))) eqn:Hu.
    + rewrite join_app; [reflexivity | | discriminate].
      intros Hnil. now rewrite Hnil in Hu.
    + apply nonempty_false in Hu.
      apply join_empty_inv in Hu.
      * now rewrite Hu.
      * intros y Hy. apply filter_In in Hy. apply Hy.
Qed.

Lemma nonempty_assignment (entry : string * UpdateSQL.update_value) :
  nonempty (UpdateSQL.assignment entry) = true.
Proof.
  destruct entry as [column [[| | b | n | s] | branches default]];
    cbn [UpdateSQL.assignment]; apply nonempty_append_r; reflexivity.
Qed.

Lemma setClause_groups (p : UpdateSQL.params) :
  UpdateSQL.setClause p = join ", " (filter nonempty (setGroups p)).
Proof.
  unfold UpdateSQL.setClause, setGroups.
  set (u := join "," (map UpdateSQL.assignment (UpdateSQL.updateData p))).
  assert (Hu : u = join ", " (filter nonempty [u])).
  { cbn [filter]. now destruct (nonempty u) eqn:E;
      [| apply nonempty_false in E]. }
  rewrite Hu at 1.
  rewrite appendGroup_join
    by (intros x; apply nonempty_append_r; reflexivity).
  rewrite appendGroup_join
    by (intros x; apply nonempty_append_r; reflexivity).
  rewrite appendGroup_join
    by (intros x; apply nonempty_append_r; reflexivity).
  rewrite appendGroup_join
    by (intros x; apply nonempty_append_r; reflexivity).
  reflexivity.
Qed.

(** X13. With a non-empty [table] and [where] and joins that parse,
    [updateSQL] returns [UPDATE<joins> <table> SET <assignments> WHERE
    <where>], then the ORDER BY fragment and [ LIMIT <n>]. The assignments
    are the non-empty ones of five groups, in this order and separated by
    [", "]: the [updateData] assignments (separated from each other by
    [","] without a space), the [setCalculations], the [fromSubQuery]
    entries, the [nullValues] and the [defaultValues]; an empty group
    leaves no separator behind. *)
Theorem updateSQL_statement (p : UpdateSQL.params) (t w j : string) :
  UpdateSQL.table p = Some t -> nonempty t = true ->
  UpdateSQL.where_ p = Some w -> nonempty w = true ->
  Utils.parseJoins (UpdateSQL.joins p) = Ok j ->
  UpdateSQL.updateSQL p =
    Ok ("UPDATE" ++ j ++ " " ++ t ++ " SET "
        ++ join ", " (filter nonempty (setGroups p))
        ++ " WHERE " ++ w
        ++ Utils.parseSort (UpdateSQL.sort p)
        ++ (if DeleteSQL.limitTruthy (UpdateSQL.limit p)
            then " LIMIT " ++ DeleteSQL.limitString (UpdateSQL.limit p)
            else "")).
Proof.
  intros Ht Hne Hw Hnw Hj.
  rewrite (updateSQL_clause_order p t w j Ht Hne Hw Hnw Hj), setClause_groups.
  now rewrite !append_assoc.
Qed.

Lemma updateSQL_statement_witness :
  UpdateSQL.updateSQL MoreExamples.updateDesk
  = Ok ("UPDATE products SET name = " ++ json_string "Desk"
        ++ ",price = 10, note = NULL, stock = DEFAULT WHERE id = 7").
Proof.
  exact (updateSQL_statement MoreExamples.updateDesk "products" "id = 7" ""
           eq_refl eq_refl eq_refl eq_refl eq_refl).
Defined.

(** X14. A literal of [updateData] is written into the statement as
    [<column> = <text>]: a number or a boolean as it prints, a string
    trimmed and then quoted as a JSON string, and [null] (or [undefined])
    as the bare word [undefined], not as [NULL]. *)
Theorem updateSQL_literal_assignment (p : UpdateSQL.params) (column : string)
  (v : scalar) (t w j : string) :
  In (column, UpdateSQL.Literal v) (UpdateSQL.updateData p) ->
  UpdateSQL.table p = Some t -> nonempty t = true ->
  UpdateSQL.where_ p = Some w -> nonempty w = true ->
  Utils.parseJoins (UpdateSQL.joins p) = Ok j ->
  exists q,
    UpdateSQL.updateSQL p = Ok q
    /\ Contains q
         (column ++ " = "
          ++ match v with
             | Num _ | Bool _ => to_string v
             | Str s => json_string (trim s)
             | Null | Undefined => "undefined"
             end).
Proof.
  intros Hin Ht Hne Hw Hnw Hj.
  eexists. split; [apply (updateSQL_clause_order p t w j); assumption |].
  apply Contains_context.
  destruct (setClause_prefix p) as [tail ->].
  apply (Contains_context _ _ ""). apply join_Contains.
  apply in_map_iff. exists (column, UpdateSQL.Literal v).
  split; [| exact Hin]. now destruct v.
Qed.

Lemma updateSQL_literal_assignment_witness :
  exists q,
    UpdateSQL.updateSQL MoreExamples.updateDesk = Ok q
    /\ Contains q ("name" ++ " = " ++ json_string (trim "  Desk ")).
Proof.
  exact (updateSQL_literal_assignment MoreExamples.updateDesk "name"
           (Str "  Desk ") "products" "id = 7" ""
           (or_introl eq_refl) eq_refl eq_refl eq_refl eq_refl eq_refl).
Defined.

End MoreDeleteUpdate.

(** ** Further properties of the INSERT builder *)

Section MoreInsert.

Import InsertQuery.

Lemma insertQuery_returns (p : params) (data : insert_data) :
  insertData p = Some data -> data <> Rows [] ->
  exists q, insertQuery p = Ok q.
Proof.
  intros Hdata Hne. unfold insertQuery. rewrite Hdata.
  destruct (columnsValues_total data (dateFields p) Hne)
    as [columns [values ->]].
  cbn [bind]. destruct (opt_truthy (uniqueColumn p));
    [| destruct (0 <? length (onDuplicateUpdateFields p))%nat];
    eexists; reflexivity.
Qed.

(** X15. [insertQuery] returns a statement exactly when [insertData] is a
    row object or a non-empty array of rows; no other parameter, not even
    a missing [table], makes it throw. An absent [insertData] gives the
    validation error, an empty array the [TypeError] of
    [Object.keys(undefined)]. *)
Theorem insertQuery_outcome (p : params) :
  (insertData p = None -> insertQuery p = Throw emptyData)
  /\ (insertData p = Some (Rows []) -> insertQuery p = Throw keysOfUndefined)
  /\ ((exists q, insertQuery p = Ok q)
      <-> exists data, insertData p = Some data /\ data <> Rows []).
Proof.
  split; [| split].
  - apply insertQuery_requires_data.
  - unfold insertQuery. now intros ->.
  - split.
    + intros [q Hq]. unfold insertQuery in Hq.
      destruct (insertData p) as [data|]; [| discriminate].
      exists data. split; [reflexivity |]. intros ->. discriminate.
    + intros [data [Hdata Hne]]. now apply (insertQuery_returns p data).
Qed.

(** X16. Without date fields, a single row object and an array holding
    just that row give the same statement, in each of the three forms. *)
Theorem insertQuery_row_or_singleton (p : params) (row : obj) :
  date (dateFields p) = None ->
  insertQuery (withData p (Row row)) = insertQuery (withData p (Rows [row])).
Proof.
  intros Hdate. unfold insertQuery, withData, columnsValues.
  cbn [insertData dateFields table uniqueColumn onDuplicateUpdateFields map
       join String.concat].
  now rewrite Hdate.
Qed.

Lemma insertQuery_row_or_singleton_witness :
  insertQuery (withData (Examples.insertIgnore ["a"]) (Row MoreExamples.annRow))
  = insertQuery
      (withData (Examples.insertIgnore ["a"]) (Rows [MoreExamples.annRow])).
Proof.
  exact (insertQuery_row_or_singleton (Examples.insertIgnore ["a"])
           MoreExamples.annRow eq_refl).
Defined.

(** X17. The plain form in full, without date fields: the column list is
    the keys of the row (of the first row, for an array) separated by
    [", "]; each row gives one parenthesised tuple of the JSON texts of
    its values separated by [","], and the tuples are separated by
    [", "]. The keys of the other rows are never looked at. *)
Theorem insertQuery_plain (p : params) :
  date (dateFields p) = None ->
  opt_truthy (uniqueColumn p) = false ->
  onDuplicateUpdateFields p = [] ->
  (forall row,
     insertData p = Some (Row row) ->
     insertQuery p =
       Ok ("INSERT INTO " ++ opt_to_string (table p)
           ++ " (" ++ join ", " (map fst row) ++ ")"
           ++ " VALUES (" ++ join "," (map jsonValue (map snd row)) ++ ")"))
  /\ (forall first others,
        insertData p = Some (Rows (first :: others)) ->
        insertQuery p =
          Ok ("INSERT INTO " ++ opt_to_string (table p)
              ++ " (" ++ join ", " (map fst first) ++ ")"
              ++ " VALUES "
              ++ join ", "
                   (map (fun row =>
                           "(" ++ join "," (map jsonValue (map snd row)) ++ ")")
                        (first :: others)))).
Proof.
  intros Hdate Hunique Hfields. split.
  - intros row Hdata. unfold insertQuery, columnsValues.
    rewrite Hdata, Hdate, Hunique, Hfields. cbn [bind length Nat.ltb Nat.leb].
    rewrite rowValues_join. fold jsonValue.
    now rewrite !append_assoc.
  - intros first others Hdata. unfold insertQuery, columnsValues.
    rewrite Hdata, Hdate, Hunique, Hfields. cbn [bind length Nat.ltb Nat.leb].
    rewrite (map_ext (fun row => "(" ++ rowValues row ++ "" ++ ")")
               (fun row => "(" ++ join "," (map jsonValue (map snd row)) ++ ")"))
      by (intros row; now rewrite rowValues_join).
    now rewrite !append_assoc.
Qed.

Lemma insertQuery_plain_witness :
  insertQuery (MoreExamples.insertUsers (Row MoreExamples.annRow))
  = Ok ("INSERT INTO users (name, age) VALUES ("
        ++ json_string "Ann" ++ ",30)").
Proof.
  exact (proj1 (insertQuery_plain
                  (MoreExamples.insertUsers (Row MoreExamples.annRow))
                  eq_refl eq_refl eq_refl) MoreExamples.annRow eq_refl).
Defined.

Lemma insertQuery_outcome_witness :
  insertQuery (Examples.insertNoRows "t") = Throw keysOfUndefined.
Proof.
  exact (proj1 (proj2 (insertQuery_outcome (Examples.insertNoRows "t")))
               eq_refl).
Defined.

(** X25. With date fields, a single row gets one more column per date
    field and as many [CURRENT_TIMESTAMP] tokens, unquoted, after its own
    values. The date columns follow the keys after a bare [","] and are
    separated from each other by [", "]. *)
Theorem insertQuery_date_fields (p : params) (row : obj) (field : string)
  (fields : list string) :
  insertData p = Some (Row row) ->
  dateFields p = Some (field :: fields) ->
  opt_truthy (uniqueColumn p) = false ->
  onDuplicateUpdateFields p = [] ->
  insertQuery p =
    Ok ("INSERT INTO " ++ opt_to_string (table p)
        ++ " (" ++ join ", " (map fst row)
        ++ "," ++ join ", " (field :: fields) ++ ")"
        ++ " VALUES (" ++ join "," (map jsonValue (map snd row))
        ++ "," ++ join ", " (map (fun _ => "CURRENT_TIMESTAMP") (field :: fields))
        ++ ")").
Proof.
  intros Hdata Hdate Hunique Hfields. unfold insertQuery, columnsValues.
  rewrite Hdata, Hdate, Hunique, Hfields.
  cbn [bind length Nat.ltb Nat.leb date dateFieldsJoin].
  rewrite rowValues_join. fold jsonValue.
  now rewrite !append_assoc.
Qed.

Lemma insertQuery_date_fields_witness :
  insertQuery MoreExamples.insertAnnDated
  = Ok ("INSERT INTO users (name, age,created_at, updated_at) VALUES ("
        ++ json_string "Ann"
        ++ ",30,CURRENT_TIMESTAMP, CURRENT_TIMESTAMP)").
Proof.
  exact (insertQuery_date_fields MoreExamples.insertAnnDated
           MoreExamples.annRow "created_at" ["updated_at"]
           eq_refl eq_refl eq_refl eq_refl).
Defined.

End MoreInsert.

(** ** Further properties of the SELECT builders *)

Section MoreSelect.

Import SelectQuery.

Lemma startsClean_trim_start (s : string) : startsClean (trim_start s) = true.
Proof.
  induction s as [|c s IH]; [reflexivity |]. cbn [trim_start].
  destruct (is_ws c) eqn:Hc; [exact IH |]. cbn [startsClean]. now rewrite Hc.
Qed.

Lemma trim_start_clean (s : string) :
  startsClean s = true -> trim_start s = s.
Proof.
  destruct s as [|c s]; [reflexivity |]. cbn [startsClean trim_start].
  intros Hc. apply negb_true_iff in Hc. now rewrite Hc.
Qed.

Lemma trim_end_cons (c : ascii) (s : string) :
  trim_end (String c s) =
  if is_ws c && negb (nonempty (trim_end s)) then "" else String c (trim_end s).
Proof.
  reflexivity.
Qed.

Lemma trim_end_idem (s : string) : trim_end (trim_end s) = trim_end s.
Proof.
  induction s as [|c s IH]; [reflexivity |]. rewrite trim_end_cons.
  destruct (is_ws c && negb (nonempty (trim_end s))) eqn:Hc; [reflexivity |].
  now rewrite trim_end_cons, IH, Hc.
Qed.

Lemma startsClean_trim_end (s : string) :
  startsClean s = true -> startsClean (trim_end s) = true.
Proof.
  destruct s as [|c s]; [reflexivity |]. cbn [startsClean]. intros Hc.
  rewrite trim_end_cons. apply negb_true_iff in Hc. rewrite Hc.
  cbn [andb startsClean]. now rewrite Hc.
Qed.

Lemma endsClean_trim_end (s : string) : endsClean (trim_end s) = true.
Proof.
  induction s as [|c s IH]; [reflexivity |]. rewrite trim_end_cons.
  destruct (is_ws c) eqn:Hc; destruct (trim_end s) as [|c' r] eqn:Hr;
    cbn [nonempty negb andb endsClean]; rewrite ?Hc; try reflexivity;
    exact IH.
Qed.

Lemma trim_idem (s : string) : trim (trim s) = trim s.
Proof.
  unfold trim.
  rewrite (trim_start_clean (trim_end (trim_start s))).
  - apply trim_end_idem.
  - apply startsClean_trim_end, startsClean_trim_start.
Qed.

Lemma parseGroupBy_falsy (groupBy : option Utils.column_spec) :
  Utils.columns_truthy groupBy = false -> Utils.parseGroupBy groupBy = "".
Proof.
  destruct groupBy as [[s | l | entries] |]; cbn; try discriminate;
    try reflexivity.
  now intros ->.
Qed.

(** Lines 116-146, with the joins parsed. *)
Lemma fromClauseOnwards_shape (c : config) (query0 select main_table j : string) :
  Utils.parseJoins (joins c) = Ok j ->
  fromClauseOnwards c query0 select main_table =
  Ok (trim (query0 ++ select ++ " FROM " ++ main_table ++ j ++ selectTail c)).
Proof.
  intros Hj. unfold fromClauseOnwards, selectTail.
  assert (Hq : forall q : string,
             match joins c with
             | Some js => bind (Utils.parseJoins (Some js))
                            (fun j0 => Ok (q ++ j0))
             | None => Ok q
             end = Ok (q ++ j)).
  { intros q. destruct (joins c) as [js|].
    - now rewrite Hj.
    - cbn in Hj. injection Hj as <-. now rewrite append_empty_r. }
  rewrite Hq. cbn [bind]. do 2 f_equal.
  destruct (opt_truthy (where_ c));
    destruct (Utils.columns_truthy (groupBy c));
    destruct (opt_truthy (having c));
    (destruct (Utils.sort_truthy (sort c)) eqn:Hs;
     [| rewrite (parseSort_falsy _ Hs)]);
    (destruct (limitSkip c) as [[l s]|];
     [cbn [limit skip]; destruct (limitTruthy l); destruct (limitTruthy s) |]);
    rewrite ?append_assoc, ?append_empty_r; reflexivity.
Qed.

Lemma fromClauseOnwards_error (c : config) (query0 select main_table : string)
  (e : error) :
  Utils.parseJoins (joins c) = Throw e ->
  fromClauseOnwards c query0 select main_table = Throw e.
Proof.
  intros Hj. unfold fromClauseOnwards.
  destruct (joins c) as [js|]; [| discriminate]. now rewrite Hj.
Qed.

(** X18. [selectQuery] validates nothing: it throws exactly when
    [parseJoins] throws, with the same error, and returns a statement in
    every other case, also without [table], [columns] or any other
    option. *)
Theorem selectQuery_outcome (c : config) :
  (forall e, selectQuery c = Throw e <-> Utils.parseJoins (joins c) = Throw e)
  /\ ((exists q, selectQuery c = Ok q)
      <-> exists j, Utils.parseJoins (joins c) = Ok j).
Proof.
  unfold selectQuery. destruct (head c) as [query main_table].
  destruct (Utils.parseJoins (joins c)) as [j|e0] eqn:Hj.
  - rewrite (fromClauseOnwards_shape c _ _ _ j Hj). split.
    + intros e. split; discriminate.
    + split; intros _; eexists; reflexivity.
  - rewrite (fromClauseOnwards_error c _ _ _ e0 Hj). split.
    + intros e. split; intros H; injection H as <-; reflexivity.
    + split; intros [x Hx]; discriminate.
Qed.

(** X19. The statement of [selectQuery] is trimmed: trimming it again
    changes nothing, it neither starts nor ends with white space, and it
    starts with [WITH RECURSIVE] when a recursive CTE is given, otherwise
    with [SELECT DISTINCT] or [SELECT]. *)
Theorem selectQuery_trimmed (c : config) (j : string) :
  Utils.parseJoins (joins c) = Ok j ->
  exists q,
    selectQuery c = Ok q
    /\ trim q = q
    /\ startsClean q = true
    /\ endsClean q = true
    /\ StartsWith q
         match recursiveCTE c with
         | Some _ => "WITH RECURSIVE"
         | None => if distinct c then "SELECT DISTINCT" else "SELECT"
         end.
Proof.
  intros Hj. unfold selectQuery.
  destruct (head c) as [query main_table] eqn:Hhead.
  rewrite (fromClauseOnwards_shape c _ _ _ j Hj).
  eexists. split; [reflexivity |]. split; [apply trim_idem |].
  split; [apply startsClean_trim_end, startsClean_trim_start |].
  split; [apply endsClean_trim_end |].
  unfold head in Hhead.
  destruct (recursiveCTE c) as [cte|]; destruct (distinct c);
    injection Hhead as <- <-; unfold recursiveCTEQuery;
    rewrite ?append_assoc; eexists; reflexivity.
Qed.

Lemma selectQuery_trimmed_witness :
  exists q,
    selectQuery MoreExamples.cteSelect = Ok q
    /\ trim q = q
    /\ startsClean q = true
    /\ endsClean q = true
    /\ StartsWith q "WITH RECURSIVE".
Proof.
  exact (selectQuery_trimmed MoreExamples.cteSelect "" eq_refl).
Defined.





(** X22. When the joins parse, the statement of [selectQuery] is, before
    trimming, the head ([WITH RECURSIVE ...] and [SELECT [DISTINCT]]), the
    select-list, [ FROM <table or CTE alias>], the joins fragment, and
    then, each only when its option is truthy and always in this order:
    [ WHERE], [ GROUP BY], [ HAVING], [ ORDER BY], [ LIMIT], [ OFFSET].
    [ OFFSET] does not need [ LIMIT]. *)
Theorem selectQuery_statement (c : config) (j : string) :
  Utils.parseJoins (joins c) = Ok j ->
  selectQuery c =
  Ok (trim (fst (head c) ++ selectList c ++ " FROM " ++ snd (head c)
            ++ j ++ selectTail c)).
Proof.
  intros Hj. unfold selectQuery. destruct (head c) as [query main_table].
  now apply fromClauseOnwards_shape.
Qed.

Lemma selectQuery_statement_witness :
  selectQuery MoreExamples.fullSelect
  = Ok ("SELECT DISTINCT id, COUNT(id) AS count FROM orders"
        ++ " JOIN orders ON users.id = orders.user_id"
        ++ " WHERE total > 10"
        ++ " GROUP BY id"
        ++ " HAVING COUNT(id) > 1"
        ++ " ORDER BY id DESC"
        ++ " LIMIT 5"
        ++ " OFFSET 10").
Proof.
  exact (selectQuery_statement MoreExamples.fullSelect
           " JOIN orders ON users.id = orders.user_id" eq_refl).
Defined.

End MoreSelect.
